(** * YT/TikTok downloader: the download orchestration of [main.py]

    A shallow embedding of [YTDLDownloader] (progress hook, retry loop,
    cancellation flag) and of the helpers it calls ([check_ffmpeg_available],
    [safe_output_template], [human_bytes]), followed by the properties of
    the natural-language specification that concern them.

    Modelling conventions.
    - Python values that flow through the dictionaries of the program are
      [None], integers and strings ([value]).
    - A finite Python float is read as the rational it approximates ([Q]);
      the only floats of the core are the percentage of the progress hook
      and the scaled amounts of [human_bytes]. Where an integer is too
      large for a float the code raises OverflowError, and so does the
      model.
    - Exceptions are values [Exn cls msg]; [msg] is what [str(e)] gives.
    - The outside world (file system, PATH, the yt-dlp engine, the thread
      that may call [stop]) is a record [world]; every effect the program
      has on it is appended to a chronological trace.
    - The engine is scripted: each invocation reports a list of events to
      the hook and then returns or raises. What it does with an exception
      that escapes the hook is part of that script. *)

From Stdlib Require Import ZArith QArith Lia Ascii String.
From stdpp Require Import gmap strings list pretty.

Local Open Scope Z_scope.

(** ** Python values *)

Module Py.

Inductive value :=
| VNone
| VInt (z : Z)
| VStr (s : string).

#[global] Instance value_eq_dec : EqDecision value.
Proof. solve_decision. Defined.

(** An exception instance: its class name and its message. *)
Record exn := Exn { exn_class : string; exn_msg : string }.

#[global] Instance exn_eq_dec : EqDecision exn.
Proof. solve_decision. Defined.

Definition ValueError := Exn "ValueError".
Definition RuntimeError := Exn "RuntimeError".
Definition TypeError := Exn "TypeError".
Definition OSError := Exn "OSError".
Definition AttributeError := Exn "AttributeError".
Definition OverflowError := Exn "OverflowError".

(** The class of a value, as error messages name it. *)
Definition type_name (v : value) : string :=
  match v with
  | VNone => "NoneType"
  | VInt _ => "int"
  | VStr _ => "str"
  end.

(** The least magnitude that does not fit a float: halfway between the
    largest double and 2^1024, which rounds (ties to even) to 2^1024. *)
Definition float_limit : Z := 2 ^ 1024 - 2 ^ 970.

(** [bool(v)]. *)
Definition truthy (v : value) : bool :=
  match v with
  | VNone => false
  | VInt z => negb (z =? 0)
  | VStr s => negb (String.eqb s EmptyString)
  end.

(** [a or b]. *)
Definition or_ (a b : value) : value := if truthy a then a else b.

(** [str(v)], as an f-string prints a value. *)
Definition str (v : value) : string :=
  match v with
  | VNone => "None"
  | VInt z => pretty z
  | VStr s => s
  end.

(** [d.get(k)] and [d.get(k, dflt)]. *)
Definition get (d : gmap string value) (k : string) : value :=
  default VNone (d !! k).

Definition get_or (d : gmap string value) (k : string) (dflt : value) : value :=
  default dflt (d !! k).

(** [v > 0] and [v < 0]: integers compare, anything else raises. *)
Definition gt0 (v : value) : exn + bool :=
  match v with
  | VInt z => inr (0 <? z)
  | VNone => inl (TypeError "'>' not supported between instances of 'NoneType' and 'int'")
  | VStr _ => inl (TypeError "'>' not supported between instances of 'str' and 'int'")
  end.

Definition lt0 (v : value) : exn + bool :=
  match v with
  | VInt z => inr (z <? 0)
  | VNone => inl (TypeError "'<' not supported between instances of 'NoneType' and 'int'")
  | VStr _ => inl (TypeError "'<' not supported between instances of 'str' and 'int'")
  end.

(** [a / b * 100]: the true division of two integers, which raises when
    the quotient does not fit a float, and the product of the quotient by
    100. (From a quotient of a hundredth of [float_limit] on that product
    is [inf], which has no rational reading; the statements about the
    value of a percentage keep the counts below that.) *)
Definition ratio100 (a b : value) : exn + Q :=
  match a, b with
  | VInt x, VInt y =>
      if y =? 0 then inl (Exn "ZeroDivisionError" "division by zero")
      else if float_limit * Z.abs y <=? Z.abs x then
        inl (OverflowError "integer division result too large for a float")
      else inr (inject_Z x / inject_Z y * 100)%Q
  | _, _ =>
      inl (TypeError ("unsupported operand type(s) for /: '" +:+ type_name a
                      +:+ "' and '" +:+ type_name b +:+ "'"))
  end.

(** [os.path.join(a, b)] of [posixpath]. *)
Definition starts_with_slash (s : string) : bool :=
  match s with
  | String c _ => Ascii.eqb c "/"%char
  | EmptyString => false
  end.

Fixpoint ends_with_slash (s : string) : bool :=
  match s with
  | EmptyString => false
  | String c EmptyString => Ascii.eqb c "/"%char
  | String _ rest => ends_with_slash rest
  end.

Definition path_join (a b : string) : string :=
  if starts_with_slash b then b
  else if String.eqb a EmptyString || ends_with_slash a then a +:+ b
  else a +:+ "/" +:+ b.

End Py.
Import Py.

(** ** [human_bytes] *)

(** The amount and the unit [human_bytes] prints, before formatting. *)
Inductive pretty_bytes :=
| Unknown
| Amount (n : Q) (unit : string).

(** The [while] loop: [u] is [units[i]], [rest] the units after it. *)
Fixpoint human_bytes_loop (n : Q) (u : string) (rest : list string) : pretty_bytes :=
  match rest with
  | [] => Amount n u
  | u' :: rest' =>
      if Qle_bool 1024 n then human_bytes_loop (n / 1024)%Q u' rest'
      else Amount n u
  end.

(** [num / den] rounded to the nearest integer, ties to the even one
    ([0 <= num], [0 < den]). *)
Definition round_half_even (num den : Z) : Z :=
  let q := num / den in
  let r := num mod den in
  if 2 * r <? den then q
  else if den <? 2 * r then q + 1
  else if Z.even q then q else q + 1.

(** [float(z)] for [0 <= z < float_limit]: the nearest double, which is
    [z] itself below 2^53 and a multiple of a power of two above. *)
Definition to_double (z : Z) : Z :=
  if z <? 2 ^ 53 then z
  else let ulp := 2 ^ (Z.log2 z - 52) in round_half_even z ulp * ulp.

(** [f"{n:.2f}"] for [0 <= n]: the nearest hundredth, ties to even, with
    two digits after the point. *)
Definition hundredths (n : Q) : Z :=
  round_half_even (Qnum n * 100) (Z.pos (Qden n)).

Definition two_decimals (n : Q) : string :=
  let h := hundredths n in
  pretty (h / 100) +:+ "." +:+
  (if h mod 100 <? 10 then "0" else EmptyString) +:+ pretty (h mod 100).

Definition render (p : pretty_bytes) : string :=
  match p with
  | Unknown => "Unknown"
  | Amount n u => two_decimals n +:+ " " +:+ u
  end.

(** [human_bytes]. The first [n /= 1024.0] turns the integer into a float
    and raises when it is too large for one; it runs only from 1024 on,
    below which [to_double] changes nothing. *)
Definition human_bytes (n : value) : exn + string :=
  match lt0 n with
  | inl e => inl e
  | inr true => inr (render Unknown)
  | inr false =>
      match n with
      | VInt z =>
          if float_limit <=? z then
            inl (OverflowError "int too large to convert to float")
          else
            inr (render (human_bytes_loop (inject_Z (to_double z)) "B"
                           ["KB"; "MB"; "GB"; "TB"]))
      | _ => inr (render Unknown)
      end
  end.

(** ** The downloader object and its progress hook *)

(** The four shapes [_last_progress] ever takes: [{}], the six-key
    dictionary of a downloading event, [{"status": "finished"}] and
    [{"status": "error"}]. Each assignment replaces the whole dictionary. *)
Inductive progress :=
| NoProgress
| Downloading (downloaded_bytes total_bytes : value) (percent : option Q)
              (speed eta : value)
| Finished
| Errored.


Record downloader := Downloader {
  output_dir : string;
  verbose : bool;
  _last_progress : progress;
  _stop_requested : bool
}.

(** [YTDLDownloader.__init__]. *)
Definition __init__ (output_dir : string) (verbose : bool) : downloader :=
  Downloader output_dir verbose NoProgress false.

Definition set_progress (self : downloader) (p : progress) : downloader :=
  Downloader (output_dir self) (verbose self) p (_stop_requested self).

(** [YTDLDownloader.stop]. *)
Definition stop (self : downloader) : downloader :=
  Downloader (output_dir self) (verbose self) (_last_progress self) true.

(** The guard and the division of the hook:
    [if total_bytes and downloaded_bytes and total_bytes > 0:
         percent = downloaded_bytes / total_bytes * 100]. *)
Definition hook_percent (downloaded_bytes total_bytes : value) : exn + option Q :=
  if truthy total_bytes then
    if truthy downloaded_bytes then
      match gt0 total_bytes with
      | inl e => inl e
      | inr true =>
          match ratio100 downloaded_bytes total_bytes with
          | inl e => inl e
          | inr q => inr (Some q)
          end
      | inr false => inr None
      end
    else inr None
  else inr None.

(** The log line of a downloading event; only whether building it raises
    matters here. *)
Definition hook_log (percent : option Q) (downloaded_bytes total_bytes : value)
  : option exn :=
  match percent with
  | Some _ =>
      match human_bytes downloaded_bytes with
      | inl e => Some e
      | inr _ =>
          match human_bytes total_bytes with
          | inl e => Some e
          | inr _ => None
          end
      end
  | None =>
      match human_bytes downloaded_bytes with
      | inl e => Some e
      | inr _ => None
      end
  end.

(** [YTDLDownloader._progress_hook]: the object after the call, and the
    exception the call raised, if any. *)
Definition _progress_hook (self : downloader) (d : gmap string value)
  : downloader * option exn :=
  let status := get d "status" in
  if decide (status = VStr "downloading") then
    let downloaded_bytes := get_or d "downloaded_bytes" (VInt (-1)) in
    let total_bytes :=
      or_ (get d "total_bytes") (get_or d "total_bytes_estimate" (VInt (-1))) in
    let speed := get d "speed" in
    let eta := get d "eta" in
    match hook_percent downloaded_bytes total_bytes with
    | inl e => (self, Some e)
    | inr percent =>
        (set_progress self
           (Downloading downloaded_bytes total_bytes percent speed eta),
         hook_log percent downloaded_bytes total_bytes)
    end
  else if decide (status = VStr "finished") then
    (set_progress self Finished, None)
  else if decide (status = VStr "error") then
    (set_progress self Errored, None)
  else (self, None).

(** The engine calls the hook once per event, in order. *)
Definition ingest (self : downloader) (events : list (gmap string value)) : downloader :=
  fold_left (fun s d => fst (_progress_hook s d)) events self.

(** ** The outside world *)

(** The options handed to [YoutubeDL]. The [progress_hooks] entry is the
    bound method [_progress_hook]; the engine model below calls it. *)
Record ydl_opts := YdlOpts {
  outtmpl : string;
  quiet : bool;
  no_warnings : bool;
  noplaylist : bool;
  format : string;
  retries : Z;
  add_metadata : bool;
  merge_output_format : string;
  writethumbnail : bool;
  postprocessors : option (list (list (string * string)))
}.

(** What one call of the engine does: the progress events it reports, how
    it ends ([extract_info] returns a dictionary, returns [None], or
    raises), and whether the other thread calls [stop] meanwhile. *)
Inductive engine_result :=
| Raises (e : exn)
| Returns (info : option (gmap string value)).

Record invocation := Invocation {
  events : list (gmap string value);
  result : engine_result;
  stop_during_call : bool
}.

(** An error of the operating system: the class Python gives it, OSError
    or one of its subclasses, and its text, for instance
    [[Errno 13] Permission denied: '/tmp/out']. *)
Inductive os_error_class :=
| EOther
| EPermission
| EFileExists
| EFileNotFound
| ENotADirectory.

Definition class_name (c : os_error_class) : string :=
  match c with
  | EOther => "OSError"
  | EPermission => "PermissionError"
  | EFileExists => "FileExistsError"
  | EFileNotFound => "FileNotFoundError"
  | ENotADirectory => "NotADirectoryError"
  end.

Definition os_exception (err : os_error_class * string) : exn :=
  Exn (class_name (fst err)) (snd err).

(** [isinstance(e, OSError)], which is what IOError names. *)
Definition is_OSError (e : exn) : bool :=
  bool_decide (exn_class e ∈ ["OSError"; "PermissionError"; "FileExistsError";
                               "FileNotFoundError"; "NotADirectoryError"]).

Record world := World {
  self : downloader;
  (** names [shutil.which] finds on PATH *)
  on_path : gset string;
  (** existing directories, as component lists; the root is implicit *)
  dirs : gset (list string);
  (** directories the system will not make, each with the error
      [os.makedirs] ends with when it has to make it *)
  denied : gmap (list string) (os_error_class * string);
  (** the [n]-th engine invocation, [n] counted from 1 *)
  engine : nat -> invocation;
  (** whether [stop] is called during the sleep after the [n]-th invocation *)
  stop_in_backoff : nat -> bool;
  (** engine invocations made so far *)
  invocations : nat
}.

Definition with_self (w : world) (s : downloader) : world :=
  World s (on_path w) (dirs w) (denied w) (engine w) (stop_in_backoff w)
        (invocations w).

Definition with_dirs (w : world) (ds : gset (list string)) : world :=
  World (self w) (on_path w) ds (denied w) (engine w) (stop_in_backoff w)
        (invocations w).

Definition count_invocation (w : world) : world :=
  World (self w) (on_path w) (dirs w) (denied w) (engine w) (stop_in_backoff w)
        (S (invocations w)).

Inductive effect :=
| Which (name : string)
| Isdir (path : string)
| Makedirs (path : string)
| ExtractInfo (url : string) (opts : ydl_opts)
| Sleep (seconds : Z).

(** ** A monad for the effects: state, trace and exceptions *)

Record run (A : Type) := Run {
  trace : list effect;
  final : world;
  outcome : exn + A
}.
Arguments Run {A} _ _ _.
Arguments trace {A} _.
Arguments final {A} _.
Arguments outcome {A} _.

Definition M (A : Type) : Type := world -> run A.

Definition ret {A} (a : A) : M A := fun w => Run [] w (inr a).

Definition raise {A} (e : exn) : M A := fun w => Run [] w (inl e).

Definition bind {A B} (m : M A) (k : A -> M B) : M B := fun w =>
  let r := m w in
  match outcome r with
  | inl e => Run (trace r) (final r) (inl e)
  | inr a =>
      let r' := k a (final r) in
      Run (trace r ++ trace r') (final r') (outcome r')
  end.

(** [try: m except Exception as e: ...]: the exception becomes a value.
    The handler of the source catches the instances of Exception; here
    every [exn] is caught, which is the same on the runs whose engine
    raises instances of Exception only ([only_exceptions] below). A
    KeyboardInterrupt or a SystemExit, which [except Exception] lets
    through, is outside these runs. *)
Definition try_ {A} (m : M A) : M (exn + A) := fun w =>
  let r := m w in Run (trace r) (final r) (inr (outcome r)).

Definition emit (e : effect) : M unit := fun w => Run [e] w (inr tt).

Definition gets {A} (f : world -> A) : M A := fun w => Run [] w (inr (f w)).

Definition modify (f : world -> world) : M unit := fun w => Run [] (f w) (inr tt).

Definition lift {A} (r : exn + A) : M A := fun w => Run [] w r.

Declare Scope py_scope.
Delimit Scope py_scope with py.
Notation "x <- m ;; k" := (bind m (fun x => k))
  (at level 100, m at next level, right associativity) : py_scope.
Notation "m ;; k" := (bind m (fun _ => k))
  (at level 100, right associativity) : py_scope.
Local Open Scope py_scope.

(** ** Helpers of the module *)

(** [check_ffmpeg_available]: [shutil.which("ffmpeg") is not None]. *)
Definition check_ffmpeg_available : M bool :=
  emit (Which "ffmpeg") ;;
  gets (fun w => bool_decide ("ffmpeg" ∈ on_path w)).

(** Paths of the file system are read as lists of components; empty
    components (doubled or trailing slashes) are dropped. *)
Fixpoint split_path_go (s cur : string) : list string :=
  match s with
  | EmptyString => if String.eqb cur EmptyString then [] else [cur]
  | String c rest =>
      if Ascii.eqb c "/"%char then
        if String.eqb cur EmptyString then split_path_go rest EmptyString
        else cur :: split_path_go rest EmptyString
      else split_path_go rest (cur +:+ String c EmptyString)
  end.

Definition split_path (p : string) : list string := split_path_go p EmptyString.

Definition dir_exists (ds : gset (list string)) (q : list string) : bool :=
  bool_decide (q = []) || bool_decide (q ∈ ds).

(** Whether a path holds a NUL character, which no system call takes. *)
Fixpoint has_nul (s : string) : bool :=
  match s with
  | EmptyString => false
  | String c rest => Ascii.eqb c Ascii.zero || has_nul rest
  end.

(** [os.path.isdir], which answers [False] for the empty path and for a
    path with a NUL character. *)
Definition is_dir (w : world) (p : string) : bool :=
  negb (has_nul p) && negb (String.eqb p EmptyString)
  && dir_exists (dirs w) (split_path p).

Definition isdir (p : string) : M bool :=
  emit (Isdir p) ;; gets (fun w => is_dir w p).

(** [os.makedirs(p, exist_ok=True)]: makes the missing directories from
    the outermost parent inwards and stops at the first one it cannot
    make, leaving what it has made. A component with a NUL character makes
    [mkdir] raise a ValueError; a refusal of the system raises its
    error. *)
Fixpoint mkdir_chain (refused : gmap (list string) (os_error_class * string))
    (parent todo : list string) (ds : gset (list string))
  : gset (list string) * option exn :=
  match todo with
  | [] => (ds, None)
  | c :: rest =>
      let q := parent ++ [c] in
      if has_nul c then (ds, Some (ValueError "embedded null byte"))
      else if dir_exists ds q then mkdir_chain refused q rest ds
      else
        match refused !! q with
        | Some err => (ds, Some (os_exception err))
        | None => mkdir_chain refused q rest ({[q]} ∪ ds)
        end
  end.

Definition makedirs (p : string) : M unit :=
  emit (Makedirs p) ;;
  if String.eqb p EmptyString then
    raise (Exn "FileNotFoundError" "[Errno 2] No such file or directory: ''")
  else
    w <- gets id ;;
    let '(ds, err) := mkdir_chain (denied w) [] (split_path p) (dirs w) in
    modify (fun w => with_dirs w ds) ;;
    match err with
    | Some e => raise e
    | None => ret tt
    end.

(** [safe_output_template]. *)
Definition safe_output_template (output_dir : string) : M string :=
  present <- isdir output_dir ;;
  (if negb present then makedirs output_dir else ret tt) ;;
  ret (path_join output_dir "%(title)s [%(id)s].%(ext)s").

(** ** The engine and the clock *)

(** The world after an engine invocation: the engine has reported its
    events to the hook, and [stop] may have been called meanwhile. *)
Definition after_invocation (w : world) : world :=
  let inv := engine w (S (invocations w)) in
  let s1 := ingest (self w) (events inv) in
  let s2 := if stop_during_call inv then stop s1 else s1 in
  count_invocation (with_self w s2).

(** [with YoutubeDL(ydl_opts) as ydl: ydl.extract_info(url, download=True)]:
    returns what the engine returns, raises what it raises. *)
Definition extract_info (url : string) (opts : ydl_opts)
  : M (option (gmap string value)) := fun w =>
  Run [ExtractInfo url opts] (after_invocation w)
      (match result (engine w (S (invocations w))) with
       | Raises e => inl e
       | Returns info => inr info
       end).

(** The world after a sleep: the other thread may have called [stop]. *)
Definition after_sleep (w : world) : world :=
  if stop_in_backoff w (invocations w) then with_self w (stop (self w)) else w.

(** [time.sleep(seconds)]. *)
Definition sleep (seconds : Z) : M unit := fun w =>
  Run [Sleep seconds] (after_sleep w) (inr tt).

(** ** [YTDLDownloader.download] *)

Definition build_opts (self : downloader) (template output_format : string)
    (max_retries : Z) : ydl_opts :=
  let base :=
    YdlOpts template (if verbose self then false else true) true true
            "bestvideo+bestaudio/best" max_retries true "mp4" false None in
  if String.eqb output_format "mp3" then
    YdlOpts (outtmpl base) (quiet base) (no_warnings base) (noplaylist base)
            "bestaudio/best" (retries base) (add_metadata base)
            (merge_output_format base) (writethumbnail base)
            (Some [[("key", "FFmpegExtractAudio"); ("preferredcodec", "mp3");
                    ("preferredquality", "192")];
                   [("key", "FFmpegMetadata")]])
  else
    YdlOpts (outtmpl base) (quiet base) (no_warnings base) (noplaylist base)
            "bestvideo+bestaudio/best" (retries base) (add_metadata base)
            "mp4" (writethumbnail base) (postprocessors base).

(** The statements of the [try] block after [extract_info] returned. *)
Definition final_path (self : downloader) (output_format : string)
    (info : option (gmap string value)) : exn + string :=
  match info with
  | None => inl (AttributeError "'NoneType' object has no attribute 'get'")
  | Some info =>
      let ext := if String.eqb output_format "mp3" then "mp3" else "mp4" in
      let title := or_ (get info "title") (get info "id") in
      let video_id := get info "id" in
      let filename := str title +:+ " [" +:+ str video_id +:+ "]." +:+ ext in
      inr (path_join (output_dir self) filename)
  end.

Definition attempt_body (url output_format : string) (opts : ydl_opts) : M string :=
  info <- extract_info url opts ;;
  s <- gets self ;;
  lift (final_path s output_format info).

(** [str(last_err)] in the final message. *)
Definition str_err (last_err : option exn) : string :=
  match last_err with
  | None => "None"
  | Some e => exn_msg e
  end.

(** [range(lo, hi)]. *)
Definition range (lo hi : Z) : list Z :=
  map (fun i => lo + Z.of_nat i) (seq 0 (Z.to_nat (hi - lo))).

(** The [for attempt in range(1, max_retries + 1)] loop and the [raise]
    after it; [todo] holds the attempt numbers still to run. *)
Fixpoint attempts (url output_format : string) (opts : ydl_opts)
    (todo : list Z) (last_err : option exn) : M string :=
  match todo with
  | [] => raise (RuntimeError ("All attempts failed. Last error: " +:+ str_err last_err))
  | attempt :: rest =>
      stopped <- gets (fun w => _stop_requested (self w)) ;;
      if stopped then raise (RuntimeError "Download stopped by user.")
      else
        r <- try_ (attempt_body url output_format opts) ;;
        match r with
        | inr path => ret path
        | inl e =>
            sleep (1 + attempt) ;;
            attempts url output_format opts rest (Some e)
        end
  end.

Definition download (url output_format : string) (max_retries : Z) : M string :=
  if negb (String.eqb output_format "mp4" || String.eqb output_format "mp3") then
    raise (ValueError "output_format must be 'mp4' or 'mp3'")
  else
    let needs_ffmpeg := String.eqb output_format "mp3" in
    missing <- (if needs_ffmpeg then
                  available <- check_ffmpeg_available ;; ret (negb available)
                else ret false) ;;
    if missing then
      raise (RuntimeError "FFmpeg is required for MP3 conversion but was not found on PATH. Install ffmpeg and try again.")
    else
      s <- gets self ;;
      template <- safe_output_template (output_dir s) ;;
      let opts := build_opts s template output_format max_retries in
      attempts url output_format opts (range 1 (max_retries + 1)) None.

(** Observations on a trace. *)
Definition is_invocation (e : effect) : bool :=
  match e with ExtractInfo _ _ => true | _ => false end.

Definition engine_calls (t : list effect) : nat :=
  length (filter (fun e => is_invocation e = true) t).

Definition waits (t : list effect) : list Z :=
  omap (fun e => match e with Sleep n => Some n | _ => None end) t.

(** Where the hook takes its two byte counts from. *)
Definition downloaded_of (d : gmap string value) : value :=
  get_or d "downloaded_bytes" (VInt (-1)).

Definition total_of (d : gmap string value) : value :=
  or_ (get d "total_bytes") (get_or d "total_bytes_estimate" (VInt (-1))).






(** Sample events. *)
Definition ev_over : gmap string value :=
  <["status" := VStr "downloading"]>
    (<["downloaded_bytes" := VInt 200]> (<["total_bytes" := VInt 100]> ∅)).

Definition ev_half : gmap string value :=
  <["status" := VStr "downloading"]>
    (<["downloaded_bytes" := VInt 50]> (<["total_bytes" := VInt 100]> ∅)).

Definition ev_no_count : gmap string value :=
  <["status" := VStr "downloading"]> (<["total_bytes" := VInt 100]> ∅).



(** ** Vocabulary for runs of [download] *)

(** The exception an attempt ends with: the one the engine raises, or the
    one [info.get] raises when [extract_info] returned [None]. *)
Definition failure (inv : invocation) : option exn :=
  match result inv with
  | Raises e => Some e
  | Returns None => Some (AttributeError "'NoneType' object has no attribute 'get'")
  | Returns (Some _) => None
  end.

(** The world after [k] failed attempts, each followed by its sleep. *)
Fixpoint after_failures (k : nat) (w : world) : world :=
  match k with
  | O => w
  | S k' => after_failures k' (after_sleep (after_invocation w))
  end.

(** The error [last_err] holds after [k] failed attempts. *)
Definition last_error (k : nat) (last : option exn) (w : world) : option exn :=
  match k with
  | O => last
  | S _ => failure (engine w (invocations w + k))
  end.

(** Nobody has called [stop] when [download] starts, and nobody calls it
    during the next [k] engine invocations and the sleeps after them. *)
Definition undisturbed (w : world) (k : nat) : Prop :=
  _stop_requested (self w) = false /\
  forall n, (invocations w < n <= invocations w + k)%nat ->
    stop_during_call (engine w n) = false /\ stop_in_backoff w n = false.

(** The next [k] engine invocations raise. *)
Definition failing (w : world) (k : nat) : Prop :=
  forall n, (invocations w < n <= invocations w + k)%nat ->
    exists e, result (engine w n) = Raises e.

(** The format is supported and, for mp3, ffmpeg is on PATH. *)
Definition admissible (output_format : string) (w : world) : Prop :=
  output_format = "mp4" \/ (output_format = "mp3" /\ "ffmpeg" ∈ on_path w).

(** The output directory exists or can be created. *)
Definition dir_ready (w : world) : bool :=
  match outcome (safe_output_template (output_dir (self w)) w) with
  | inr _ => true
  | inl _ => false
  end.

(** The effects of [download] before path resolution. *)
Definition probe_trace (output_format : string) : list effect :=
  if String.eqb output_format "mp3" then [Which "ffmpeg"] else [].

(** The effects of failed attempts: an engine call, then a sleep. *)
Definition failed_attempts (url : string) (opts : ydl_opts) (todo : list Z)
  : list effect :=
  flat_map (fun a => [ExtractInfo url opts; Sleep (1 + a)]) todo.

Definition cancelled : exn := RuntimeError "Download stopped by user.".

Definition all_failed (last : option exn) : exn :=
  RuntimeError ("All attempts failed. Last error: " +:+ str_err last).

Definition invalid_format : exn :=
  ValueError "output_format must be 'mp4' or 'mp3'".

Definition ffmpeg_missing : exn :=
  RuntimeError "FFmpeg is required for MP3 conversion but was not found on PATH. Install ffmpeg and try again.".

(** The file name of a finished download. *)
Definition filename_of (info : gmap string value) (ext : string) : string :=
  str (or_ (get info "title") (get info "id")) +:+ " [" +:+ str (get info "id")
  +:+ "]." +:+ ext.

(** What the loop never changes: the engine, the other thread's script,
    PATH, the file system and the output directory of the object. *)
Definition same_env (w w' : world) : Prop :=
  engine w' = engine w /\ stop_in_backoff w' = stop_in_backoff w /\
  on_path w' = on_path w /\ dirs w' = dirs w /\ denied w' = denied w /\
  output_dir (self w') = output_dir (self w).

(** The directory of a path and its parents, outermost first. *)
Definition ancestors (p : string) : list (list string) :=
  map (fun k => take k (split_path p)) (seq 1 (length (split_path p))).

(** The directories [mkdir_chain] goes through below [parent]. *)
Definition chain_dirs (parent todo : list string) : list (list string) :=
  map (fun k => parent ++ take k todo) (seq 1 (length todo)).

(** What [os.makedirs] can raise: an error of the system, or the
    ValueError of a NUL character. *)
Definition makedirs_error (e : exn) : Prop :=
  is_OSError e = true \/ e = ValueError "embedded null byte".



(** Sample engines and worlds. *)
Definition always_boom (n : nat) : invocation :=
  Invocation [] (Raises (Exn "DownloadError" "boom")) false.

Definition clip_info : gmap string value :=
  <["title" := VStr "Clip"]> (<["id" := VStr "abc123"]> ∅).

Definition timeout_then_clip (n : nat) : invocation :=
  match n with
  | 1%nat => Invocation [] (Raises (Exn "DownloadError" "network timeout")) false
  | _ => Invocation [ev_half] (Returns (Some clip_info)) false
  end.

Definition never (n : nat) : bool := false.

Definition world_of (eng : nat -> invocation) (path : gset string)
    (refused : gmap (list string) (os_error_class * string)) : world :=
  World (__init__ "/tmp/out" false) path ∅ refused eng never 0.

(** A downloader on which [stop] has been called. *)
Definition stopped_world : world :=
  World (stop (__init__ "/tmp/out" false)) ∅ ∅ ∅ timeout_then_clip never 0.




(** ** The rest of the module *)



(** An event whose status is none of the three the hook knows. *)
Definition ignored_event (d : gmap string value) : Prop :=
  get d "status" <> VStr "downloading" /\
  get d "status" <> VStr "finished" /\
  get d "status" <> VStr "error".

(** An event on which the hook reaches an assignment to [_last_progress]. *)
Definition accepted_event (d : gmap string value) : Prop :=
  get d "status" = VStr "finished" \/
  get d "status" = VStr "error" \/
  (get d "status" = VStr "downloading" /\
   exists pc, hook_percent (downloaded_of d) (total_of d) = inr pc).

(** The file-name pattern of [safe_output_template]. *)
Definition pattern : string := "%(title)s [%(id)s].%(ext)s".






(** Sample inputs. *)
Definition ev_unknown_count : gmap string value :=
  <["status" := VStr "downloading"]>
    (<["downloaded_bytes" := VNone]> (<["total_bytes" := VInt 100]> ∅)).

Definition ev_fragment : gmap string value :=
  <["status" := VStr "fragment"]> ∅.

Definition ev_finished : gmap string value :=
  <["status" := VStr "finished"]> ∅.


Definition rooted_info : gmap string value :=
  <["title" := VStr "/etc/cron.d/x"]> (<["id" := VStr "abc123"]> ∅).

Definition clip_while_stopping (n : nat) : invocation :=
  Invocation [ev_half] (Returns (Some clip_info)) true.

Definition always (n : nat) : bool := true.

Definition boom_then_stop : world :=
  World (__init__ "/tmp/out" false) ∅ ∅ ∅ always_boom always 0.

Definition always_none (n : nat) : invocation :=
  Invocation [] (Returns None) false.

(** * Properties *)

(** ** The progress hook *)

Section ProgressHook.

Implicit Types (s : downloader) (d : gmap string value).

Lemma hook_stop_flag s d :
  _stop_requested (fst (_progress_hook s d)) = _stop_requested s.
Proof.
  unfold _progress_hook.
  repeat case_decide; try reflexivity.
  destruct (hook_percent _ _); reflexivity.
Qed.

Lemma hook_output_dir s d :
  output_dir (fst (_progress_hook s d)) = output_dir s.
Proof.
  unfold _progress_hook.
  repeat case_decide; try reflexivity.
  destruct (hook_percent _ _); reflexivity.
Qed.

Lemma ingest_stop_flag evs : forall s,
  _stop_requested (ingest s evs) = _stop_requested s.
Proof.
  induction evs as [|d evs IH]; intros s; [reflexivity|].
  unfold ingest in *. simpl. rewrite IH. apply hook_stop_flag.
Qed.

Lemma ingest_output_dir evs : forall s,
  output_dir (ingest s evs) = output_dir s.
Proof.
  induction evs as [|d evs IH]; intros s; [reflexivity|].
  unfold ingest in *. simpl. rewrite IH. apply hook_output_dir.
Qed.






End ProgressHook.






Lemma human_bytes_int (z : Z) :
  z < float_limit -> exists p, human_bytes (VInt z) = inr p.
Proof.
  intros Hz. unfold human_bytes, lt0. destruct (z <? 0); [eauto|].
  destruct (Z.leb_spec float_limit z); [lia|eauto].
Qed.






(** ** Worlds along the retry loop *)

Lemma run_eta {A} (r : run A) : Run (trace r) (final r) (outcome r) = r.
Proof. destruct r; reflexivity. Qed.

Lemma same_env_refl w : same_env w w.
Proof. repeat split. Qed.

Lemma same_env_trans w1 w2 w3 : same_env w1 w2 -> same_env w2 w3 -> same_env w1 w3.
Proof.
  unfold same_env. intros (A1&A2&A3&A4&A5&A6) (B1&B2&B3&B4&B5&B6).
  repeat split; congruence.
Qed.

Lemma after_invocation_env w : same_env w (after_invocation w).
Proof.
  unfold same_env, after_invocation. simpl. repeat split.
  destruct (stop_during_call _); simpl; apply ingest_output_dir.
Qed.

Lemma after_sleep_env w : same_env w (after_sleep w).
Proof.
  unfold same_env, after_sleep.
  destruct (stop_in_backoff _ _); repeat split.
Qed.

Lemma after_invocation_count w :
  invocations (after_invocation w) = S (invocations w).
Proof. reflexivity. Qed.

Lemma after_sleep_count w : invocations (after_sleep w) = invocations w.
Proof. unfold after_sleep. destruct (stop_in_backoff _ _); reflexivity. Qed.

Lemma after_invocation_flag w :
  _stop_requested (self (after_invocation w)) =
  _stop_requested (self w) || stop_during_call (engine w (S (invocations w))).
Proof.
  unfold after_invocation. simpl.
  destruct (stop_during_call _); simpl; rewrite ?ingest_stop_flag.
  - rewrite orb_true_r. reflexivity.
  - rewrite orb_false_r. reflexivity.
Qed.

Lemma after_sleep_flag w :
  _stop_requested (self (after_sleep w)) =
  _stop_requested (self w) || stop_in_backoff w (invocations w).
Proof.
  unfold after_sleep.
  destruct (stop_in_backoff _ _); simpl.
  - rewrite orb_true_r. reflexivity.
  - rewrite orb_false_r. reflexivity.
Qed.

Lemma after_failures_env k : forall w, same_env w (after_failures k w).
Proof.
  induction k as [|k IH]; intros w; simpl; [apply same_env_refl|].
  eapply same_env_trans; [|apply IH].
  eapply same_env_trans; [apply after_invocation_env | apply after_sleep_env].
Qed.

Lemma after_failures_count k : forall w,
  invocations (after_failures k w) = (invocations w + k)%nat.
Proof.
  induction k as [|k IH]; intros w; simpl; [lia|].
  rewrite IH, after_sleep_count, after_invocation_count. lia.
Qed.

Lemma after_failures_flag k : forall w,
  undisturbed w k -> _stop_requested (self (after_failures k w)) = false.
Proof.
  induction k as [|k IH]; intros w [H0 Hn]; simpl; [exact H0|].
  apply IH. split.
  - rewrite after_sleep_flag, after_invocation_flag, H0.
    destruct (after_invocation_env w) as (_ & -> & _).
    rewrite after_invocation_count.
    destruct (Hn (S (invocations w))) as [-> ->]; [lia|reflexivity].
  - intros n Hr.
    rewrite after_sleep_count, after_invocation_count in Hr.
    destruct (same_env_trans _ _ _ (after_invocation_env w)
                (after_sleep_env (after_invocation w))) as (-> & -> & _).
    apply Hn. lia.
Qed.

Lemma undisturbed_le w k k' : (k' <= k)%nat -> undisturbed w k -> undisturbed w k'.
Proof. intros Hle [H0 Hn]. split; [exact H0|]. intros n Hr. apply Hn. lia. Qed.

Lemma failing_failure w k n :
  failing w k -> (invocations w < n <= invocations w + k)%nat ->
  exists e, result (engine w n) = Raises e /\ failure (engine w n) = Some e.
Proof.
  intros Hf Hr. destruct (Hf n Hr) as [e He]. exists e. split; [exact He|].
  unfold failure. rewrite He. reflexivity.
Qed.

(** ** One iteration of the loop *)

Section Loop.

Variables (url output_format : string) (opts : ydl_opts).

Lemma attempts_nil last w :
  attempts url output_format opts [] last w = Run [] w (inl (all_failed last)).
Proof. reflexivity. Qed.

(** The check at the top of an iteration. *)
Lemma attempts_stopped a rest last w :
  _stop_requested (self w) = true ->
  attempts url output_format opts (a :: rest) last w = Run [] w (inl cancelled).
Proof.
  intros H. cbn [attempts]. unfold bind, gets. cbn [outcome trace final].
  rewrite H. reflexivity.
Qed.

(** A failed attempt: engine call, sleep, next iteration. *)
Lemma attempts_failed a rest last w e :
  _stop_requested (self w) = false ->
  failure (engine w (S (invocations w))) = Some e ->
  attempts url output_format opts (a :: rest) last w =
    let r := attempts url output_format opts rest (Some e)
               (after_sleep (after_invocation w)) in
    Run ([ExtractInfo url opts; Sleep (1 + a)] ++ trace r) (final r) (outcome r).
Proof.
  intros Hflag Hfail. cbn [attempts].
  unfold failure in Hfail.
  unfold attempt_body, try_, extract_info, sleep, gets, lift, ret, final_path, bind.
  cbn [outcome trace final]. rewrite Hflag.
  destruct (result (engine w (S (invocations w)))) as [e'|[info|]];
    cbn [outcome trace final app].
  - injection Hfail as ->. reflexivity.
  - discriminate.
  - injection Hfail as <-. reflexivity.
Qed.

(** A successful attempt: engine call, then the path is returned. *)
Lemma attempts_succeeded a rest last w info :
  _stop_requested (self w) = false ->
  result (engine w (S (invocations w))) = Returns (Some info) ->
  attempts url output_format opts (a :: rest) last w =
    Run [ExtractInfo url opts] (after_invocation w)
        (inr (path_join (output_dir (self w))
                (filename_of info (if String.eqb output_format "mp3"
                                   then "mp3" else "mp4")))).
Proof.
  intros Hflag Hres. cbn [attempts].
  unfold attempt_body, try_, extract_info, sleep, gets, lift, ret, final_path, bind.
  cbn [outcome trace final]. rewrite Hflag, Hres.
  cbn [outcome trace final app].
  destruct (after_invocation_env w) as (_&_&_&_&_&->).
  reflexivity.
Qed.

(** A run of failed attempts in front of the remaining ones. *)
Lemma attempts_failures pre : forall rest last w,
  (forall i, (i < length pre)%nat ->
     _stop_requested (self (after_failures i w)) = false /\
     failure (engine w (S (invocations w + i))) <> None) ->
  attempts url output_format opts (pre ++ rest) last w =
    let r := attempts url output_format opts rest
               (last_error (length pre) last w)
               (after_failures (length pre) w) in
    Run (failed_attempts url opts pre ++ trace r) (final r) (outcome r).
Proof.
  induction pre as [|a pre IH]; intros rest last w H.
  - cbn [app length last_error after_failures failed_attempts flat_map].
    symmetry. apply run_eta.
  - destruct (H 0%nat) as [Hflag Hfail]; [simpl; lia|].
    rewrite Nat.add_0_r in Hfail.
    destruct (failure (engine w (S (invocations w)))) as [e|] eqn:He;
      [clear Hfail|congruence].
    cbn [app]. rewrite (attempts_failed a (pre ++ rest) last w e Hflag He).
    cbv zeta. rewrite IH.
    + cbv zeta. cbn [length after_failures failed_attempts flat_map].
      fold (failed_attempts url opts pre).
      replace (last_error (length pre) (Some e) (after_sleep (after_invocation w)))
        with (last_error (S (length pre)) last w).
      * rewrite <- !app_assoc. reflexivity.
      * unfold last_error.
        destruct (same_env_trans _ _ _ (after_invocation_env w)
                    (after_sleep_env (after_invocation w))) as (-> & _).
        rewrite after_sleep_count, after_invocation_count.
        destruct (length pre) as [|k].
        -- rewrite Nat.add_1_r. exact He.
        -- f_equal. f_equal. lia.
    + intros i Hi.
      destruct (H (S i)) as [Hf Hx]; [simpl; lia|].
      split; [exact Hf|].
      destruct (same_env_trans _ _ _ (after_invocation_env w)
                  (after_sleep_env (after_invocation w))) as (-> & _).
      rewrite after_sleep_count, after_invocation_count.
      replace (S (S (invocations w) + i)) with (S (invocations w + S i)) by lia.
      exact Hx.
Qed.

End Loop.

(** ** Before the loop: format, probe, path resolution *)

Lemma makedirs_trace p w : trace (makedirs p w) = [Makedirs p].
Proof.
  unfold makedirs, bind, emit, gets, modify, raise, ret. cbn [outcome trace final].
  destruct (String.eqb p EmptyString); [reflexivity|].
  cbn [outcome trace final].
  destruct (mkdir_chain _ _ _ _) as [ds [e|]]; reflexivity.
Qed.

Lemma makedirs_final p w :
  exists ds, final (makedirs p w) = with_dirs w ds.
Proof.
  unfold makedirs, bind, emit, gets, modify, raise, ret. cbn [outcome trace final].
  destruct (String.eqb p EmptyString).
  - exists (dirs w). destruct w; reflexivity.
  - cbn [outcome trace final].
    destruct (mkdir_chain _ _ _ _) as [ds [e|]]; exists ds; reflexivity.
Qed.

Lemma safe_output_template_run dir w :
  safe_output_template dir w =
    if is_dir w dir then
      Run [Isdir dir] w (inr (path_join dir "%(title)s [%(id)s].%(ext)s"))
    else
      let r := makedirs dir w in
      Run [Isdir dir; Makedirs dir] (final r)
          (match outcome r with
           | inl e => inl e
           | inr _ => inr (path_join dir "%(title)s [%(id)s].%(ext)s")
           end).
Proof.
  unfold safe_output_template, isdir, emit, gets, ret, bind.
  cbn [outcome trace final].
  destruct (is_dir w dir); cbn [negb outcome trace final app]; [reflexivity|].
  rewrite makedirs_trace.
  destruct (outcome (makedirs dir w)); reflexivity.
Qed.

(** Path resolution touches the directories only. *)
Lemma safe_output_template_final dir w :
  exists ds, final (safe_output_template dir w) = with_dirs w ds.
Proof.
  rewrite safe_output_template_run.
  destruct (is_dir w dir); cbn [final].
  - exists (dirs w). destruct w; reflexivity.
  - apply makedirs_final.
Qed.

Lemma safe_output_template_quiet dir w :
  engine_calls (trace (safe_output_template dir w)) = 0%nat /\
  waits (trace (safe_output_template dir w)) = [].
Proof.
  rewrite safe_output_template_run.
  destruct (is_dir w dir); split; reflexivity.
Qed.

Lemma probe_trace_quiet output_format :
  engine_calls (probe_trace output_format) = 0%nat /\
  waits (probe_trace output_format) = [].
Proof.
  unfold probe_trace. destruct (String.eqb _ _); split; reflexivity.
Qed.

(** [download] on a supported format whose probe passes: path resolution,
    then the loop. *)
Lemma download_run url output_format max_retries w :
  admissible output_format w ->
  download url output_format max_retries w =
    let r0 := safe_output_template (output_dir (self w)) w in
    match outcome r0 with
    | inl e => Run (probe_trace output_format ++ trace r0) (final r0) (inl e)
    | inr t =>
        let r := attempts url output_format
                   (build_opts (self w) t output_format max_retries)
                   (range 1 (max_retries + 1)) None (final r0) in
        Run (probe_trace output_format ++ trace r0 ++ trace r) (final r) (outcome r)
    end.
Proof.
  intros [->|[-> Hff]]; unfold download, probe_trace.
  - change (negb (String.eqb "mp4" "mp4" || String.eqb "mp4" "mp3")) with false.
    change (String.eqb "mp4" "mp3") with false.
    unfold bind, gets, ret. cbn [outcome trace final app].
    destruct (outcome (safe_output_template _ w)); reflexivity.
  - change (negb (String.eqb "mp3" "mp4" || String.eqb "mp3" "mp3")) with false.
    change (String.eqb "mp3" "mp3") with true.
    unfold check_ffmpeg_available, emit, bind, gets, ret.
    cbn [outcome trace final app].
    rewrite bool_decide_eq_true_2 by exact Hff.
    cbn [negb outcome trace final app].
    destruct (outcome (safe_output_template _ w)); reflexivity.
Qed.

(** Counting over traces. *)
Lemma engine_calls_app t1 t2 :
  engine_calls (t1 ++ t2) = (engine_calls t1 + engine_calls t2)%nat.
Proof. unfold engine_calls. rewrite filter_app, length_app. reflexivity. Qed.

Lemma waits_app t1 t2 : waits (t1 ++ t2) = waits t1 ++ waits t2.
Proof. unfold waits. apply omap_app. Qed.

Lemma engine_calls_failed url opts todo :
  engine_calls (failed_attempts url opts todo) = length todo.
Proof.
  induction todo as [|a todo IH]; [reflexivity|].
  unfold failed_attempts in *. cbn [flat_map].
  rewrite engine_calls_app, IH. reflexivity.
Qed.

Lemma waits_failed url opts todo :
  waits (failed_attempts url opts todo) = map (fun a => 1 + a) todo.
Proof.
  induction todo as [|a todo IH]; [reflexivity|].
  unfold failed_attempts in *. cbn [flat_map].
  rewrite waits_app, IH. reflexivity.
Qed.

(** [range]. *)
Lemma length_range lo hi : length (range lo hi) = Z.to_nat (hi - lo).
Proof. unfold range. rewrite length_map, length_seq. reflexivity. Qed.

Lemma range_shift lo a n : forall k,
  map (fun i => lo + Z.of_nat i) (seq (a + k) n) =
  map (fun i => lo + Z.of_nat a + Z.of_nat i) (seq k n).
Proof.
  induction n as [|n IH]; intros k; [reflexivity|].
  cbn [seq map]. f_equal; [lia|].
  replace (S (a + k)) with (a + S k)%nat by lia. apply IH.
Qed.

Lemma range_split lo mid hi :
  lo <= mid <= hi -> range lo hi = range lo mid ++ range mid hi.
Proof.
  intros H. unfold range.
  replace (Z.to_nat (hi - lo)) with (Z.to_nat (mid - lo) + Z.to_nat (hi - mid))%nat by lia.
  rewrite seq_app, map_app. f_equal.
  rewrite Nat.add_0_l.
  rewrite <- (Nat.add_0_r (Z.to_nat (mid - lo))) at 1.
  rewrite range_shift.
  replace (lo + Z.of_nat (Z.to_nat (mid - lo))) with mid by lia.
  reflexivity.
Qed.

Lemma range_cons lo hi : lo < hi -> range lo hi = lo :: range (lo + 1) hi.
Proof.
  intros H. rewrite (range_split lo (lo + 1) hi) by lia.
  unfold range at 1. replace (lo + 1 - lo) with 1 by lia.
  change (Z.to_nat 1) with 1%nat. cbn [seq map app Z.of_nat].
  rewrite Z.add_0_r. reflexivity.
Qed.

Lemma range_succ lo hi :
  map (fun a => 1 + a) (range lo hi) = range (1 + lo) (1 + hi).
Proof.
  unfold range. rewrite map_map.
  replace (1 + hi - (1 + lo)) with (hi - lo) by lia.
  apply map_ext. intros i. lia.
Qed.

(** ** Runs of the loop *)

Section Runs.

Variables (url output_format : string) (opts : ydl_opts).

(** Every attempt fails: each engine call is followed by a sleep, the one
    of the last attempt included, and the final error quotes the last
    failure. *)
Lemma attempts_all_fail todo last w :
  undisturbed w (length todo - 1) ->
  failing w (length todo) ->
  todo <> [] ->
  attempts url output_format opts todo last w =
    Run (failed_attempts url opts todo) (after_failures (length todo) w)
        (inl (all_failed (failure (engine w (invocations w + length todo))))).
Proof.
  intros Hu Hf Hne.
  rewrite <- (app_nil_r todo) at 1.
  rewrite attempts_failures.
  - cbv zeta. rewrite attempts_nil. cbn [trace final outcome].
    rewrite app_nil_r. unfold last_error.
    destruct todo as [|a todo]; [congruence|reflexivity].
  - intros i Hi. split.
    + apply after_failures_flag. eapply undisturbed_le; [|exact Hu]. lia.
    + destruct (failing_failure w (length todo) (S (invocations w + i)) Hf)
        as (e & _ & ->); [lia|discriminate].
Qed.

(** The attempt after [pre] succeeds: the attempts of [pre] fail and
    sleep, the next engine call returns, nothing follows it. *)
Lemma attempts_succeed_after pre a rest last w info :
  undisturbed w (length pre) ->
  failing w (length pre) ->
  result (engine w (S (invocations w + length pre))) = Returns (Some info) ->
  attempts url output_format opts (pre ++ a :: rest) last w =
    Run (failed_attempts url opts pre ++ [ExtractInfo url opts])
        (after_invocation (after_failures (length pre) w))
        (inr (path_join (output_dir (self w))
                (filename_of info (if String.eqb output_format "mp3"
                                   then "mp3" else "mp4")))).
Proof.
  intros Hu Hf Hres.
  rewrite attempts_failures.
  - cbv zeta.
    destruct (after_failures_env (length pre) w) as (He&_&_&_&_&Hd).
    rewrite (attempts_succeeded _ _ _ a rest _ _ info).
    + cbn [trace final outcome]. rewrite Hd. reflexivity.
    + apply after_failures_flag. exact Hu.
    + rewrite He, after_failures_count. exact Hres.
  - intros i Hi. split.
    + apply after_failures_flag. eapply undisturbed_le; [|exact Hu]. lia.
    + destruct (failing_failure w (length pre) (S (invocations w + i)) Hf)
        as (e & _ & ->); [lia|discriminate].
Qed.

(** [stop] is called during the sleep that follows a failed attempt: the
    next attempt does not start. *)
Lemma attempts_stopped_in_backoff a a' rest last w :
  _stop_requested (self w) = false ->
  failure (engine w (S (invocations w))) <> None ->
  stop_in_backoff w (S (invocations w)) = true ->
  attempts url output_format opts (a :: a' :: rest) last w =
    Run [ExtractInfo url opts; Sleep (1 + a)] (after_sleep (after_invocation w))
        (inl cancelled).
Proof.
  intros Hflag Hfail Hstop.
  destruct (failure (engine w (S (invocations w)))) as [e|] eqn:He; [|congruence].
  rewrite (attempts_failed _ _ _ a _ last w e Hflag He). cbv zeta.
  rewrite attempts_stopped; [reflexivity|].
  rewrite after_sleep_flag.
  destruct (after_invocation_env w) as (_ & -> & _).
  rewrite after_invocation_count, Hstop. apply orb_true_r.
Qed.

End Runs.

(** ** Runs of [download] *)

Lemma download_invalid_format url output_format max_retries w :
  output_format <> "mp4" -> output_format <> "mp3" ->
  download url output_format max_retries w = Run [] w (inl invalid_format).
Proof.
  intros H4 H3. unfold download.
  destruct (String.eqb_spec output_format "mp4"); [congruence|].
  destruct (String.eqb_spec output_format "mp3"); [congruence|].
  reflexivity.
Qed.

Lemma download_ffmpeg_missing url max_retries w :
  "ffmpeg" ∉ on_path w ->
  download url "mp3" max_retries w = Run [Which "ffmpeg"] w (inl ffmpeg_missing).
Proof.
  intros H. unfold download.
  change (negb (String.eqb "mp3" "mp4" || String.eqb "mp3" "mp3")) with false.
  change (String.eqb "mp3" "mp3") with true.
  unfold check_ffmpeg_available, emit, bind, gets, ret, raise.
  cbn [outcome trace final app].
  rewrite bool_decide_eq_false_2 by exact H.
  reflexivity.
Qed.

(** A format is supported with its tool present, or unsupported, or mp3
    without ffmpeg. *)
Lemma format_cases output_format w :
  admissible output_format w \/
  (output_format <> "mp4" /\ output_format <> "mp3") \/
  (output_format = "mp3" /\ "ffmpeg" ∉ on_path w).
Proof.
  destruct (decide (output_format = "mp4")) as [->|H4];
    [left; left; reflexivity|].
  destruct (decide (output_format = "mp3")) as [->|H3]; [|right; left; auto].
  destruct (decide ("ffmpeg" ∈ on_path w)); [left; right; auto|right; right; auto].
Qed.

Lemma admissible_ext output_format w :
  admissible output_format w ->
  (if String.eqb output_format "mp3" then "mp3" else "mp4") = output_format.
Proof. intros [->|[-> _]]; reflexivity. Qed.

Lemma dir_ready_outcome w :
  dir_ready w = true ->
  exists t, outcome (safe_output_template (output_dir (self w)) w) = inr t.
Proof.
  unfold dir_ready. destruct (outcome _) as [e|t]; [discriminate|eauto].
Qed.

(** The loop starts in a world that differs from the initial one by its
    directories only. *)
Lemma undisturbed_with_dirs w ds k : undisturbed w k -> undisturbed (with_dirs w ds) k.
Proof. intros H. exact H. Qed.

Lemma failing_with_dirs w ds k : failing w k -> failing (with_dirs w ds) k.
Proof. intros H. exact H. Qed.

(** All attempts of [download] fail. *)
Lemma download_all_fail url output_format max_retries w :
  admissible output_format w ->
  dir_ready w = true ->
  1 <= max_retries ->
  undisturbed w (Z.to_nat max_retries - 1) ->
  failing w (Z.to_nat max_retries) ->
  let r := download url output_format max_retries w in
  exists pre opts e,
    engine_calls pre = 0%nat /\ waits pre = [] /\
    trace r = pre ++ failed_attempts url opts (range 1 (max_retries + 1)) /\
    result (engine w (invocations w + Z.to_nat max_retries)) = Raises e /\
    outcome r = inl (all_failed (Some e)).
Proof.
  intros Hadm Hdir HN Hu Hf r. subst r.
  rewrite (download_run _ _ _ _ Hadm). cbv zeta.
  destruct (dir_ready_outcome w Hdir) as [t Ht]. rewrite Ht.
  destruct (safe_output_template_final (output_dir (self w)) w) as [ds Hds].
  destruct (safe_output_template_quiet (output_dir (self w)) w) as [Hq1 Hq2].
  destruct (probe_trace_quiet output_format) as [Hp1 Hp2].
  rewrite Hds.
  assert (Hlen : length (range 1 (max_retries + 1)) = Z.to_nat max_retries)
    by (rewrite length_range; f_equal; lia).
  rewrite attempts_all_fail.
  - cbn [trace final outcome]. rewrite Hlen.
    destruct (failing_failure w _ (invocations w + Z.to_nat max_retries) Hf)
      as (e & He & Hfe); [lia|].
    exists (probe_trace output_format ++ trace (safe_output_template (output_dir (self w)) w)).
    eexists. exists e.
    rewrite engine_calls_app, waits_app, Hq1, Hq2, Hp1, Hp2, app_assoc.
    repeat split; try reflexivity; [exact He|].
    change (engine (with_dirs w ds)) with (engine w).
    change (invocations (with_dirs w ds)) with (invocations w).
    rewrite Hfe. reflexivity.
  - rewrite Hlen. apply undisturbed_with_dirs, Hu.
  - rewrite Hlen. apply failing_with_dirs, Hf.
  - intros E. rewrite E in Hlen. simpl in Hlen. lia.
Qed.

(** [download] when [stop] has been called before: nothing reaches the
    engine and the call raises. *)
Lemma download_when_stopped url output_format max_retries w :
  _stop_requested (self w) = true ->
  exists t e w',
    download url output_format max_retries w = Run t w' (inl e) /\
    engine_calls t = 0%nat /\ waits t = [] /\ self w' = self w /\
    (admissible output_format w -> dir_ready w = true -> 1 <= max_retries ->
     e = cancelled).
Proof.
  intros Hstop.
  destruct (format_cases output_format w) as [Hadm|[[H4 H3]|[-> Hff]]].
  - rewrite (download_run _ _ _ _ Hadm). cbv zeta.
    destruct (safe_output_template_final (output_dir (self w)) w) as [ds Hds].
    destruct (safe_output_template_quiet (output_dir (self w)) w) as [Hq1 Hq2].
    destruct (probe_trace_quiet output_format) as [Hp1 Hp2].
    unfold dir_ready.
    destruct (outcome (safe_output_template (output_dir (self w)) w)) as [e|t].
    + do 3 eexists. split; [reflexivity|].
      rewrite engine_calls_app, waits_app, Hq1, Hq2, Hp1, Hp2, Hds.
      repeat split. discriminate.
    + rewrite Hds.
      destruct (Z_lt_le_dec max_retries 1) as [Hlt|Hge].
      * replace (range 1 (max_retries + 1)) with (@nil Z)
          by (unfold range; replace (Z.to_nat (max_retries + 1 - 1)) with 0%nat by lia;
              reflexivity).
        rewrite attempts_nil. cbn [trace final outcome].
        do 3 eexists. split; [reflexivity|].
        rewrite app_nil_r, engine_calls_app, waits_app, Hq1, Hq2, Hp1, Hp2.
        repeat split. lia.
      * rewrite (range_cons 1 (max_retries + 1)) by lia.
        rewrite attempts_stopped by exact Hstop. cbn [trace final outcome].
        do 3 eexists. split; [reflexivity|].
        rewrite app_nil_r, engine_calls_app, waits_app, Hq1, Hq2, Hp1, Hp2.
        repeat split.
  - rewrite download_invalid_format by assumption.
    do 3 eexists. split; [reflexivity|]. repeat split.
    intros [->|[-> _]]; congruence.
  - rewrite download_ffmpeg_missing by assumption.
    do 3 eexists. split; [reflexivity|]. repeat split.
    intros [E|[_ Hin]]; [discriminate|contradiction].
Qed.

(** ** The file system *)

Lemma dir_exists_mono (ds ds' : gset (list string)) q :
  ds ⊆ ds' -> dir_exists ds q = true -> dir_exists ds' q = true.
Proof.
  unfold dir_exists. intros Hsub H.
  apply orb_true_iff in H. apply orb_true_iff.
  destruct H as [H|H]; [left; exact H|right].
  apply bool_decide_eq_true in H. apply bool_decide_eq_true, Hsub, H.
Qed.

Lemma dir_exists_below (ds : gset (list string)) parent c :
  dir_exists ds (parent ++ [c]) = bool_decide (parent ++ [c] ∈ ds).
Proof.
  unfold dir_exists. rewrite bool_decide_eq_false_2; [reflexivity|].
  intros H. apply (f_equal length) in H. rewrite length_app in H. simpl in H. lia.
Qed.

Lemma chain_dirs_cons parent c rest :
  chain_dirs parent (c :: rest) =
  (parent ++ [c]) :: chain_dirs (parent ++ [c]) rest.
Proof.
  unfold chain_dirs. cbn [length seq map take]. f_equal.
  rewrite <- seq_shift, map_map. apply map_ext. intros k.
  cbn [take]. rewrite cons_middle, app_assoc. reflexivity.
Qed.

Lemma ancestors_chain p : ancestors p = chain_dirs [] (split_path p).
Proof. reflexivity. Qed.

Section Chain.

Variable refused : gmap (list string) (os_error_class * string).

(** Directories are only added, and only those of the chain. *)
Lemma mkdir_chain_between todo : forall parent ds ds' err,
  mkdir_chain refused parent todo ds = (ds', err) ->
  ds ⊆ ds' /\ ds' ⊆ ds ∪ list_to_set (chain_dirs parent todo).
Proof.
  induction todo as [|c rest IH]; intros parent ds ds' err H; cbn [mkdir_chain] in H.
  - injection H as <- _. split; [reflexivity|apply union_subseteq_l].
  - rewrite chain_dirs_cons. cbn [list_to_set].
    destruct (has_nul c).
    { injection H as <- _. split; [reflexivity|apply union_subseteq_l]. }
    destruct (dir_exists ds (parent ++ [c])).
    { destruct (IH _ _ _ _ H) as [H1 H2]. split; [exact H1|].
      intros x Hx. apply H2 in Hx. set_unfold. tauto. }
    destruct (refused !! (parent ++ [c])).
    { injection H as <- _. split; [reflexivity|apply union_subseteq_l]. }
    destruct (IH _ _ _ _ H) as [H1 H2]. split.
    + transitivity ({[parent ++ [c]]} ∪ ds); [apply union_subseteq_r|exact H1].
    + intros x Hx. apply H2 in Hx. set_unfold. tauto.
Qed.

(** When the chain ends well every directory of it is there, none of its
    components holds a NUL character, and none it had to make was refused. *)
Lemma mkdir_chain_ok todo : forall parent ds ds',
  mkdir_chain refused parent todo ds = (ds', None) ->
  Forall (fun c => has_nul c = false) todo /\
  forall q, q ∈ chain_dirs parent todo ->
    q ∈ ds' /\ (q ∈ ds \/ refused !! q = None).
Proof.
  induction todo as [|c rest IH]; intros parent ds ds' H; cbn [mkdir_chain] in H.
  - split; [constructor|]. intros q Hq. apply elem_of_nil in Hq. contradiction.
  - rewrite chain_dirs_cons.
    destruct (has_nul c) eqn:Hc; [discriminate|].
    rewrite dir_exists_below in H.
    destruct (bool_decide (parent ++ [c] ∈ ds)) eqn:Hin.
    + apply bool_decide_eq_true in Hin.
      destruct (IH _ _ _ H) as [Hn Hk].
      destruct (mkdir_chain_between _ _ _ _ _ H) as [Hsub _].
      split; [constructor; assumption|].
      intros q Hq. apply elem_of_cons in Hq as [->|Hq]; [|apply Hk, Hq].
      split; [apply Hsub, Hin|left; exact Hin].
    + apply bool_decide_eq_false in Hin.
      destruct (refused !! (parent ++ [c])) eqn:Hr; [discriminate|].
      destruct (IH _ _ _ H) as [Hn Hk].
      destruct (mkdir_chain_between _ _ _ _ _ H) as [Hsub _].
      split; [constructor; assumption|].
      intros q Hq. apply elem_of_cons in Hq as [->|Hq].
      * split; [apply Hsub, elem_of_union_l, elem_of_singleton; reflexivity|].
        right. exact Hr.
      * destruct (Hk q Hq) as [H1 H2]. split; [exact H1|].
        destruct H2 as [H2|H2]; [|right; exact H2].
        apply elem_of_union in H2 as [H2|H2]; [|left; exact H2].
        apply elem_of_singleton in H2. subst q. right. exact Hr.
Qed.

(** What the chain raises: the ValueError of a NUL character in one of
    its components, or the error of a refusal. *)
Lemma mkdir_chain_error todo : forall parent ds ds' e,
  mkdir_chain refused parent todo ds = (ds', Some e) ->
  (e = ValueError "embedded null byte" /\ Exists (fun c => has_nul c = true) todo) \/
  is_OSError e = true.
Proof.
  induction todo as [|c rest IH]; intros parent ds ds' e H; cbn [mkdir_chain] in H.
  - discriminate.
  - destruct (has_nul c) eqn:Hc.
    { injection H as _ <-. left. split; [reflexivity|]. left. exact Hc. }
    assert (Hrec : forall ds0, mkdir_chain refused (parent ++ [c]) rest ds0 = (ds', Some e) ->
              (e = ValueError "embedded null byte" /\
               Exists (fun c => has_nul c = true) (c :: rest)) \/
              is_OSError e = true).
    { intros ds0 H0. destruct (IH _ _ _ _ H0) as [[H1 H2]|H1]; [left|right; exact H1].
      split; [exact H1|right; exact H2]. }
    destruct (dir_exists ds (parent ++ [c])); [apply (Hrec _ H)|].
    destruct (refused !! (parent ++ [c])) as [[k text]|]; [|apply (Hrec _ H)].
    injection H as _ <-. right. destruct k; reflexivity.
Qed.


End Chain.

Lemma has_nul_app a b : has_nul (a +:+ b) = has_nul a || has_nul b.
Proof.
  induction a as [|c a IH]; [reflexivity|].
  simpl. rewrite IH. apply orb_assoc.
Qed.

(** A path holds a NUL character exactly when a component of it does. *)
Lemma has_nul_split_go s : forall cur,
  Forall (fun c => has_nul c = false) (split_path_go s cur) <->
  has_nul cur = false /\ has_nul s = false.
Proof.
  induction s as [|c s IH]; intros cur; cbn [split_path_go has_nul].
  - destruct (String.eqb_spec cur EmptyString) as [->|Hne].
    + split; [split; reflexivity|constructor].
    + split.
      * intros H. inversion H; subst. split; [assumption|reflexivity].
      * intros [H _]. constructor; [exact H|constructor].
  - destruct (Ascii.eqb_spec c "/"%char) as [->|Hc].
    + change (Ascii.eqb "/"%char Ascii.zero) with false. cbn [orb].
      destruct (String.eqb_spec cur EmptyString) as [->|Hne].
      * apply IH.
      * rewrite Forall_cons, IH. cbn [has_nul]. tauto.
    + rewrite IH, has_nul_app. cbn [has_nul]. rewrite orb_false_r.
      destruct (has_nul cur), (Ascii.eqb c Ascii.zero), (has_nul s);
        cbn; intuition congruence.
Qed.

Lemma has_nul_split p :
  Forall (fun c => has_nul c = false) (split_path p) <-> has_nul p = false.
Proof.
  unfold split_path. rewrite has_nul_split_go. cbn [has_nul]. tauto.
Qed.

(** [makedirs] only adds directories, and only the directory asked for
    and its parents. *)
Lemma makedirs_bounds p w :
  exists ds, final (makedirs p w) = with_dirs w ds /\
             (dirs w ⊆ ds) /\ ds ⊆ dirs w ∪ list_to_set (ancestors p).
Proof.
  unfold makedirs, bind, emit, gets, modify, raise, ret. cbn [outcome trace final].
  destruct (String.eqb p EmptyString).
  - exists (dirs w). split; [destruct w; reflexivity|].
    split; [reflexivity|apply union_subseteq_l].
  - cbn [outcome trace final].
    destruct (mkdir_chain _ _ _ _) as [ds err] eqn:Hmk.
    exists ds. split; [destruct err; reflexivity|].
    rewrite ancestors_chain.
    exact (mkdir_chain_between _ _ _ _ _ _ Hmk).
Qed.

Lemma is_dir_of_ancestors w p :
  p <> EmptyString -> has_nul p = false ->
  (forall q, q ∈ ancestors p -> q ∈ dirs w) ->
  is_dir w p = true.
Proof.
  intros Hp Hn Hq. unfold is_dir. rewrite Hn.
  destruct (String.eqb_spec p EmptyString); [contradiction|]. cbn [negb andb].
  unfold dir_exists. destruct (split_path p) as [|c l] eqn:Hsp; [reflexivity|].
  apply orb_true_iff. right. apply bool_decide_eq_true. apply Hq.
  unfold ancestors. rewrite Hsp. apply list_elem_of_fmap.
  exists (length (c :: l)). split; [rewrite firstn_all; reflexivity|].
  apply elem_of_seq. simpl. lia.
Qed.

(** [makedirs] raises an error of the system or the ValueError of a NUL
    character, or leaves the directory and all its parents in place. *)
Lemma makedirs_outcome p w :
  match outcome (makedirs p w) with
  | inl e =>
      makedirs_error e /\ (has_nul p = false -> is_OSError e = true)
  | inr _ =>
      (forall q, q ∈ ancestors p -> q ∈ dirs (final (makedirs p w))) /\
      is_dir (final (makedirs p w)) p = true
  end.
Proof.
  unfold makedirs, bind, emit, gets, modify, raise, ret. cbn [outcome trace final].
  destruct (String.eqb_spec p EmptyString) as [->|Hp].
  { split; [left; reflexivity|reflexivity]. }
  cbn [outcome trace final].
  destruct (mkdir_chain _ _ _ _) as [ds [e|]] eqn:Hmk; cbn [outcome trace final].
  - destruct (mkdir_chain_error _ _ _ _ _ _ Hmk) as [[-> Hex]|He].
    + split; [right; reflexivity|]. intros Hn. exfalso.
      apply has_nul_split in Hn. apply Exists_exists in Hex as (c & Hc & Hcn).
      rewrite Forall_forall in Hn. specialize (Hn c Hc). congruence.
    + split; [left; exact He|intros _; exact He].
  - destruct (mkdir_chain_ok _ _ _ _ _ Hmk) as [Hn Hk].
    assert (Hall : forall q, q ∈ ancestors p -> q ∈ ds)
      by (intros q Hq; apply Hk; exact Hq).
    split; [exact Hall|].
    apply is_dir_of_ancestors; [exact Hp|apply has_nul_split, Hn|exact Hall].
Qed.



(** * The claims *)

(** C1: the code departs from the claim at max attempts 1 with an engine
    that always fails. The download makes its one engine invocation and
    then sleeps 2 time units after that last attempt, before it raises;
    the claim allows no wait after the last attempt. *)
Theorem C1_sleep_after_last_attempt :
  let r := download "https://x/video" "mp4" 1 (world_of always_boom ∅ ∅) in
  engine_calls (trace r) = 1%nat /\
  waits (trace r) = [2] /\
  last (trace r) = Some (Sleep 2) /\
  outcome r = inl (all_failed (Some (Exn "DownloadError" "boom"))).
Proof. vm_compute. repeat split. Qed.

(** C3, as stated, fails: with an engine that always fails the same way,
    a download of one attempt and a download of two attempts end with the
    same error, so the error does not tell the number of attempts made. *)
Lemma C3_error_has_no_attempt_count :
  ~ exists count : exn -> nat,
      forall max_retries, 1 <= max_retries <= 2 ->
        let r := download "https://x/video" "mp4" max_retries
                   (world_of always_boom ∅ ∅) in
        engine_calls (trace r) = Z.to_nat max_retries /\
        forall e, outcome r = inl e -> count e = engine_calls (trace r).
Proof.
  intros [count H].
  destruct (H 1 ltac:(lia)) as [_ H1], (H 2 ltac:(lia)) as [_ H2].
  specialize (H1 _ eq_refl). specialize (H2 _ eq_refl).
  vm_compute in H1, H2. congruence.
Qed.

(** C3, amended: when all N attempts of a request fail, the error
    surfaced to the caller is a RuntimeError whose message is "All
    attempts failed. Last error: " followed by the text of the last
    underlying engine error; the number of attempts is not part of it. *)
Theorem C3_error_quotes_last_failure url output_format max_retries w :
  admissible output_format w ->
  dir_ready w = true ->
  1 <= max_retries ->
  undisturbed w (Z.to_nat max_retries - 1) ->
  failing w (Z.to_nat max_retries) ->
  exists e,
    result (engine w (invocations w + Z.to_nat max_retries)) = Raises e /\
    outcome (download url output_format max_retries w) =
      inl (RuntimeError ("All attempts failed. Last error: " +:+ exn_msg e)).
Proof.
  intros Hadm Hdir HN Hu Hf.
  destruct (download_all_fail url _ _ _ Hadm Hdir HN Hu Hf)
    as (pre & opts & e & _ & _ & _ & He & Hout).
  exists e. split; [exact He|exact Hout].
Qed.

Lemma world_of_undisturbed eng path refused k :
  (forall n, stop_during_call (eng n) = false) ->
  undisturbed (world_of eng path refused) k.
Proof. intros H. split; [reflexivity|]. intros n _. split; [apply H|reflexivity]. Defined.

Lemma always_boom_failing path refused k :
  failing (world_of always_boom path refused) k.
Proof. intros n _. eexists. reflexivity. Defined.

Lemma C3_error_quotes_last_failure_witness :
  exists e,
    result (always_boom 2) = Raises e /\
    outcome (download "https://x/video" "mp4" 2 (world_of always_boom ∅ ∅)) =
      inl (RuntimeError ("All attempts failed. Last error: " +:+ exn_msg e)).
Proof.
  apply (C3_error_quotes_last_failure "https://x/video" "mp4" 2
           (world_of always_boom ∅ ∅)).
  - left. reflexivity.
  - vm_compute. reflexivity.
  - lia.
  - apply world_of_undisturbed. reflexivity.
  - apply always_boom_failing.
Defined.

(** C5: when the engine succeeds on attempt K <= max attempts (the
    earlier attempts fail, nobody calls stop before attempt K starts),
    exactly K engine invocations occur, the waits are those after attempts
    1..K-1 (2, 3, ..., K time units) and none follows attempt K, and the
    download returns the output directory joined with
    "<title> [<id>].<ext>" built from the engine's result. *)
Theorem C5_success_on_attempt_K url output_format max_retries w (K : nat) info :
  admissible output_format w ->
  dir_ready w = true ->
  (1 <= K)%nat -> Z.of_nat K <= max_retries ->
  undisturbed w (K - 1) ->
  failing w (K - 1) ->
  result (engine w (invocations w + K)) = Returns (Some info) ->
  let r := download url output_format max_retries w in
  engine_calls (trace r) = K /\
  waits (trace r) = range 2 (Z.of_nat K + 1) /\
  outcome r = inr (path_join (output_dir (self w)) (filename_of info output_format)) /\
  exists pre opts,
    engine_calls pre = 0%nat /\ waits pre = [] /\
    trace r = pre ++ failed_attempts url opts (range 1 (Z.of_nat K))
                  ++ [ExtractInfo url opts].
Proof.
  intros Hadm Hdir HK HKN Hu Hf Hres r. subst r.
  rewrite (download_run _ _ _ _ Hadm). cbv zeta.
  destruct (dir_ready_outcome w Hdir) as [t Ht]. rewrite Ht.
  destruct (safe_output_template_final (output_dir (self w)) w) as [ds Hds].
  destruct (safe_output_template_quiet (output_dir (self w)) w) as [Hq1 Hq2].
  destruct (probe_trace_quiet output_format) as [Hp1 Hp2].
  rewrite Hds.
  assert (Hlen : length (range 1 (Z.of_nat K)) = (K - 1)%nat)
    by (rewrite length_range; lia).
  rewrite (range_split 1 (Z.of_nat K) (max_retries + 1)) by lia.
  rewrite (range_cons (Z.of_nat K)) by lia.
  rewrite (attempts_succeed_after _ _ _ _ _ _ _ _ info).
  - cbn [trace final outcome].
    rewrite !engine_calls_app, !waits_app, Hq1, Hq2, Hp1, Hp2.
    rewrite engine_calls_failed, waits_failed, Hlen, range_succ.
    rewrite (admissible_ext _ _ Hadm).
    change (engine_calls [ExtractInfo url (build_opts (self w) t output_format max_retries)])
      with 1%nat.
    change (waits [ExtractInfo url (build_opts (self w) t output_format max_retries)])
      with (@nil Z).
    split; [lia|].
    split; [cbn [app]; rewrite app_nil_r, (Z.add_comm 1 (Z.of_nat K)); reflexivity|].
    split; [reflexivity|].
    exists (probe_trace output_format ++ trace (safe_output_template (output_dir (self w)) w)).
    eexists.
    rewrite engine_calls_app, waits_app, Hq1, Hq2, Hp1, Hp2, <- !app_assoc.
    repeat split.
  - rewrite Hlen. apply undisturbed_with_dirs, Hu.
  - rewrite Hlen. apply failing_with_dirs, Hf.
  - rewrite Hlen. cbn [engine invocations with_dirs].
    replace (S (invocations w + (K - 1))) with (invocations w + K)%nat by lia.
    exact Hres.
Qed.

Lemma timeout_then_clip_failing path refused :
  failing (world_of timeout_then_clip path refused) 1.
Proof.
  intros n Hn. cbn in Hn. assert (n = 1%nat) as -> by lia.
  eexists. reflexivity.
Defined.

Lemma timeout_then_clip_quiet n : stop_during_call (timeout_then_clip n) = false.
Proof. destruct n as [|[|n]]; reflexivity. Defined.

Lemma C5_success_on_attempt_K_witness :
  let r := download "https://x/video" "mp4" 3 (world_of timeout_then_clip ∅ ∅) in
  engine_calls (trace r) = 2%nat /\
  waits (trace r) = [2] /\
  outcome r = inr "/tmp/out/Clip [abc123].mp4".
Proof.
  destruct (C5_success_on_attempt_K "https://x/video" "mp4" 3
              (world_of timeout_then_clip ∅ ∅) 2 clip_info) as (H1 & H2 & H3 & _).
  - left. reflexivity.
  - vm_compute. reflexivity.
  - lia.
  - lia.
  - apply world_of_undisturbed. exact timeout_then_clip_quiet.
  - apply timeout_then_clip_failing.
  - reflexivity.
  - split; [exact H1|]. split; [exact H2|exact H3].
Defined.

(** C6: when the cancellation flag is set at the check on top of an
    iteration, that attempt does not start and the loop raises the
    cancellation error; so it is when stop is called during the sleep
    after a failed attempt that has a successor; and a download that
    starts with the flag set makes no engine invocation and, on a valid
    request of at least one attempt, raises the cancellation error. *)
Theorem C6_cancellation_checked_before_attempt url output_format opts :
  (forall a rest last w,
     _stop_requested (self w) = true ->
     attempts url output_format opts (a :: rest) last w =
       Run [] w (inl cancelled)) /\
  (forall a a' rest last w,
     _stop_requested (self w) = false ->
     failure (engine w (S (invocations w))) <> None ->
     stop_in_backoff w (S (invocations w)) = true ->
     attempts url output_format opts (a :: a' :: rest) last w =
       Run [ExtractInfo url opts; Sleep (1 + a)]
           (after_sleep (after_invocation w)) (inl cancelled)) /\
  (forall max_retries w,
     _stop_requested (self w) = true ->
     let r := download url output_format max_retries w in
     engine_calls (trace r) = 0%nat /\
     (admissible output_format w -> dir_ready w = true -> 1 <= max_retries ->
      outcome r = inl cancelled)).
Proof.
  split; [|split].
  - intros a rest last w H. apply attempts_stopped, H.
  - intros a a' rest last w H1 H2 H3. apply attempts_stopped_in_backoff; assumption.
  - intros max_retries w H r. subst r.
    destruct (download_when_stopped url output_format max_retries w H)
      as (t & e & w' & -> & Hc & _ & _ & He).
    split; [exact Hc|]. intros Ha Hd Hn. cbn [outcome].
    rewrite (He Ha Hd Hn). reflexivity.
Qed.

Lemma C6_cancellation_checked_before_attempt_witness :
  let r := download "https://x/video" "mp4" 3 stopped_world in
  engine_calls (trace r) = 0%nat /\ outcome r = inl cancelled.
Proof.
  destruct (C6_cancellation_checked_before_attempt "https://x/video" "mp4"
              (build_opts (self stopped_world) "t" "mp4" 3)) as (_ & _ & H).
  destruct (H 3 stopped_world eq_refl) as [H0 H1].
  split; [exact H0|]. apply H1.
  - left. reflexivity.
  - vm_compute. reflexivity.
  - lia.
Defined.

(** C7: a download to mp3 when ffmpeg is not on PATH raises the
    missing-dependency error right after the probe: no path resolution, no
    engine invocation, no wait. *)
Theorem C7_audio_without_ffmpeg_fails_fast url max_retries w :
  "ffmpeg" ∉ on_path w ->
  let r := download url "mp3" max_retries w in
  r = Run [Which "ffmpeg"] w (inl ffmpeg_missing) /\
  engine_calls (trace r) = 0%nat.
Proof.
  intros H r. subst r. rewrite (download_ffmpeg_missing _ _ _ H).
  split; reflexivity.
Qed.

Lemma C7_audio_without_ffmpeg_fails_fast_witness :
  let r := download "https://x/video" "mp3" 3 (world_of timeout_then_clip ∅ ∅) in
  r = Run [Which "ffmpeg"] (world_of timeout_then_clip ∅ ∅) (inl ffmpeg_missing) /\
  engine_calls (trace r) = 0%nat.
Proof.
  apply (C7_audio_without_ffmpeg_fails_fast "https://x/video" 3
           (world_of timeout_then_clip ∅ ∅)).
  set_solver.
Defined.

(** C8: a download whose format is neither mp4 nor mp3 raises the
    invalid-format error with no effect at all: the probe has not run, no
    path is resolved, the engine is not invoked. *)
Theorem C8_invalid_format_fails_first url output_format max_retries w :
  output_format <> "mp4" -> output_format <> "mp3" ->
  download url output_format max_retries w = Run [] w (inl invalid_format).
Proof. apply download_invalid_format. Qed.

Lemma C8_invalid_format_fails_first_witness :
  download "https://x/video" "webm" 3 (world_of timeout_then_clip ∅ ∅) =
    Run [] (world_of timeout_then_clip ∅ ∅) (inl invalid_format).
Proof.
  apply (C8_invalid_format_fails_first "https://x/video" "webm" 3
           (world_of timeout_then_clip ∅ ∅)); discriminate.
Defined.




(** C10: the cancellation flag only ever goes up. stop sets it, the
    progress hook keeps it, and a download that starts with the flag set
    keeps it, makes no engine invocation and no wait, and raises, whatever
    the request. *)
Theorem C10_stop_flag_is_monotone :
  (forall s, _stop_requested (stop s) = true) /\
  (forall s d, _stop_requested (fst (_progress_hook s d)) = _stop_requested s) /\
  (forall w, _stop_requested (self w) = true ->
     _stop_requested (self (after_invocation w)) = true /\
     _stop_requested (self (after_sleep w)) = true) /\
  (forall url output_format max_retries w,
     _stop_requested (self w) = true ->
     let r := download url output_format max_retries w in
     _stop_requested (self (final r)) = true /\
     engine_calls (trace r) = 0%nat /\ waits (trace r) = [] /\
     exists e, outcome r = inl e).
Proof.
  split; [reflexivity|]. split; [apply hook_stop_flag|]. split.
  - intros w H. rewrite after_invocation_flag, after_sleep_flag, H. split; reflexivity.
  - intros url output_format max_retries w H r. subst r.
    destruct (download_when_stopped url output_format max_retries w H)
      as (t & e & w' & -> & Hc & Hw & Hs & _).
    cbn [trace final outcome]. rewrite Hs.
    split; [exact H|]. split; [exact Hc|]. split; [exact Hw|]. eauto.
Qed.

Lemma C10_stop_flag_is_monotone_witness :
  let r := download "https://x/video" "mp4" 3 stopped_world in
  _stop_requested (self (final r)) = true /\
  engine_calls (trace r) = 0%nat /\ waits (trace r) = [] /\
  exists e, outcome r = inl e.
Proof.
  destruct C10_stop_flag_is_monotone as (_ & _ & _ & H).
  exact (H "https://x/video" "mp4" 3 stopped_world eq_refl).
Defined.

(** * Further properties of the module *)

(** ** [human_bytes] *)




Lemma two_pow_53_small : 2 ^ 53 < float_limit.
Proof. reflexivity. Qed.



(** Sample outputs: the rounding of the format shows at 1024^3 - 1. *)
Example human_bytes_samples :
  human_bytes (VInt 0) = inr "0.00 B" /\
  human_bytes (VInt 1500) = inr "1.46 KB" /\
  human_bytes (VInt (1024 ^ 3 - 1)) = inr "1024.00 MB" /\
  human_bytes (VInt (5 * 1024 ^ 5)) = inr "5120.00 TB".
Proof. vm_compute. repeat split. Qed.

(** X2: the errors of [human_bytes]. It answers Unknown for every
    negative integer; it raises a TypeError when its argument is no
    integer ([None] or a string), an OverflowError when it is an integer
    too large for a float (from 2^1024 - 2^970 on), and nothing
    otherwise. *)
Theorem human_bytes_error_behaviour (v : value) :
  (forall z, v = VInt z -> z < 0 -> human_bytes v = inr "Unknown") /\
  ((forall z, v <> VInt z) ->
   exists e, human_bytes v = inl e /\ exn_class e = "TypeError") /\
  (forall z, v = VInt z -> float_limit <= z ->
   human_bytes v = inl (OverflowError "int too large to convert to float")) /\
  (forall z, v = VInt z -> z < float_limit -> exists s, human_bytes v = inr s).
Proof.
  split; [|split; [|split]].
  - intros z -> Hz. unfold human_bytes, lt0.
    destruct (Z.ltb_spec z 0); [reflexivity|lia].
  - intros H. destruct v as [|z|s]; [eexists; split; reflexivity| |eexists; split; reflexivity].
    exfalso. exact (H z eq_refl).
  - intros z -> Hz. unfold human_bytes, lt0.
    pose proof two_pow_53_small as HL.
    destruct (Z.ltb_spec z 0) as [H|_]; [assert (0 < 2 ^ 53) by reflexivity; lia|].
    destruct (Z.leb_spec float_limit z); [reflexivity|lia].
  - intros z -> Hz. apply human_bytes_int, Hz.
Qed.

Lemma human_bytes_error_behaviour_witness :
  human_bytes (VInt (-1)) = inr "Unknown" /\
  human_bytes (VInt (10 ^ 400)) =
    inl (OverflowError "int too large to convert to float").
Proof.
  destruct (human_bytes_error_behaviour (VInt (-1))) as (H & _).
  destruct (human_bytes_error_behaviour (VInt (10 ^ 400))) as (_ & _ & H' & _).
  split.
  - apply (H (-1)); [reflexivity|lia].
  - apply (H' (10 ^ 400)); [reflexivity|]. vm_compute. discriminate.
Defined.

(** ** The progress hook, continued *)

Lemma hook_verbose (s : downloader) (d : gmap string value) :
  verbose (fst (_progress_hook s d)) = verbose s.
Proof.
  unfold _progress_hook.
  repeat case_decide; try reflexivity.
  destruct (hook_percent _ _); reflexivity.
Qed.

Lemma ingest_app (s : downloader) (evs evs' : list (gmap string value)) :
  ingest s (evs ++ evs') = ingest (ingest s evs) evs'.
Proof. unfold ingest. apply fold_left_app. Qed.

(** X3: whatever events the engine reports, the hook changes nothing of
    the downloader but its snapshot: the output directory, the verbosity
    and the cancellation flag stay as they were. *)
Theorem ingest_changes_only_the_snapshot (s : downloader)
    (evs : list (gmap string value)) :
  ingest s evs =
    Downloader (output_dir s) (verbose s) (_last_progress (ingest s evs))
               (_stop_requested s).
Proof.
  revert s. induction evs as [|d evs IH]; intros s.
  - destruct s; reflexivity.
  - change (ingest s (d :: evs)) with (ingest (fst (_progress_hook s d)) evs).
    rewrite IH at 1.
    rewrite hook_output_dir, hook_verbose, hook_stop_flag. reflexivity.
Qed.

(** X4: events whose status is missing or is none of downloading,
    finished and error are ignored: they leave the downloader as it is and
    the hook raises nothing on them. *)
Theorem ingest_ignores_unknown_events (s : downloader)
    (evs : list (gmap string value)) :
  Forall ignored_event evs ->
  ingest s evs = s /\
  Forall (fun d => _progress_hook s d = (s, None)) evs.
Proof.
  intros H. induction H as [|d evs (H1 & H2 & H3) _ [IH1 IH2]].
  - split; [reflexivity|constructor].
  - assert (Hd : _progress_hook s d = (s, None)).
    { unfold _progress_hook. rewrite !decide_False by assumption. reflexivity. }
    split.
    + change (ingest s (d :: evs)) with (ingest (fst (_progress_hook s d)) evs).
      rewrite Hd. exact IH1.
    + constructor; assumption.
Qed.

Lemma ingest_ignores_unknown_events_witness :
  ingest (__init__ "/tmp/out" false) [ev_fragment; ∅] = __init__ "/tmp/out" false /\
  Forall (fun d => _progress_hook (__init__ "/tmp/out" false) d =
                   (__init__ "/tmp/out" false, None)) [ev_fragment; ∅].
Proof.
  apply (ingest_ignores_unknown_events (__init__ "/tmp/out" false) [ev_fragment; ∅]).
  repeat constructor; discriminate.
Defined.

Lemma hook_snapshot_of_accepted (s s' : downloader) (d : gmap string value) :
  accepted_event d ->
  _last_progress (fst (_progress_hook s d)) =
  _last_progress (fst (_progress_hook s' d)).
Proof.
  intros [H|[H|[H [pc Hpc]]]]; unfold _progress_hook; rewrite H.
  - rewrite decide_False by discriminate. rewrite decide_True by reflexivity.
    reflexivity.
  - rewrite !decide_False by discriminate. rewrite decide_True by reflexivity.
    reflexivity.
  - rewrite decide_True by reflexivity.
    fold (downloaded_of d). fold (total_of d). rewrite Hpc. reflexivity.
Qed.

(** X5: each assignment replaces the snapshot as a whole. After any
    sequence of events that ends with one on which the hook reaches its
    assignment, the snapshot is the one that last event alone gives to a
    new downloader: nothing of the earlier events is left in it. *)
Theorem ingest_last_event_wins (s : downloader) (evs : list (gmap string value))
    (d : gmap string value) (dir : string) (v : bool) :
  accepted_event d ->
  _last_progress (ingest s (evs ++ [d])) =
  _last_progress (ingest (__init__ dir v) [d]).
Proof.
  intros H. rewrite ingest_app.
  change (ingest (ingest s evs) [d]) with (fst (_progress_hook (ingest s evs) d)).
  change (ingest (__init__ dir v) [d]) with (fst (_progress_hook (__init__ dir v) d)).
  apply hook_snapshot_of_accepted, H.
Qed.

Lemma ingest_last_event_wins_witness :
  _last_progress (ingest (__init__ "/tmp/out" false) ([ev_half; ev_over] ++ [ev_finished])) =
  _last_progress (ingest (__init__ "elsewhere" true) [ev_finished]).
Proof.
  apply (ingest_last_event_wins (__init__ "/tmp/out" false) [ev_half; ev_over]
           ev_finished "elsewhere" true).
  left. reflexivity.
Defined.






(** X7: a downloading event whose downloaded_bytes key holds [None]
    first replaces the snapshot (with that [None] and no percentage) and
    then raises a TypeError from the log line, whatever the total is. *)
Theorem hook_none_count_raises_after_update (s : downloader)
    (d : gmap string value) :
  get d "status" = VStr "downloading" ->
  d !! "downloaded_bytes" = Some VNone ->
  _progress_hook s d =
    (set_progress s
       (Downloading VNone (total_of d) None (get d "speed") (get d "eta")),
     Some (TypeError "'<' not supported between instances of 'NoneType' and 'int'")).
Proof.
  intros Hst Hdl. unfold _progress_hook. rewrite Hst.
  rewrite decide_True by reflexivity.
  fold (total_of d).
  replace (get_or d "downloaded_bytes" (VInt (-1))) with VNone
    by (unfold get_or; rewrite Hdl; reflexivity).
  unfold hook_percent. cbn [truthy].
  destruct (truthy (total_of d)); reflexivity.
Qed.

Lemma hook_none_count_raises_after_update_witness :
  _progress_hook (__init__ "/tmp/out" false) ev_unknown_count =
    (set_progress (__init__ "/tmp/out" false)
       (Downloading VNone (VInt 100) None VNone VNone),
     Some (TypeError "'<' not supported between instances of 'NoneType' and 'int'")).
Proof.
  apply (hook_none_count_raises_after_update (__init__ "/tmp/out" false)
           ev_unknown_count); reflexivity.
Defined.

(** ** The GUI monitor *)




(** ** The shape of every run of the loop *)

Lemma failure_none (inv : invocation) :
  failure inv = None -> exists info, result inv = Returns (Some info).
Proof.
  unfold failure. destruct (result inv) as [e|[info|]]; try discriminate. eauto.
Qed.

Lemma last_error_step k last w e :
  failure (engine w (S (invocations w))) = Some e ->
  last_error k (Some e) (after_sleep (after_invocation w)) = last_error (S k) last w.
Proof.
  intros He. unfold last_error.
  destruct (same_env_trans _ _ _ (after_invocation_env w)
              (after_sleep_env (after_invocation w))) as (-> & _).
  rewrite after_sleep_count, after_invocation_count.
  destruct k as [|k].
  - rewrite Nat.add_1_r. symmetry. exact He.
  - f_equal. f_equal. lia.
Qed.

Section Shape.

Variables (url output_format : string) (opts : ydl_opts).

(** A run of the loop is [k] failed attempts, each with its sleep, and
    then one of: cancellation at the next check, exhaustion, or one more
    engine call that succeeds. *)
Lemma attempts_shape todo : forall last w,
  let r := attempts url output_format opts todo last w in
  exists k, (k <= length todo)%nat /\
    ((trace r = failed_attempts url opts (take k todo) /\
      final r = after_failures k w /\
      (((k < length todo)%nat /\
        _stop_requested (self (after_failures k w)) = true /\
        outcome r = inl cancelled) \/
       (k = length todo /\ outcome r = inl (all_failed (last_error k last w)))))
     \/
     ((k < length todo)%nat /\
      trace r = failed_attempts url opts (take k todo) ++ [ExtractInfo url opts] /\
      final r = after_invocation (after_failures k w) /\
      exists info,
        result (engine w (S (invocations w + k))) = Returns (Some info) /\
        outcome r = inr (path_join (output_dir (self w))
                           (filename_of info (if String.eqb output_format "mp3"
                                              then "mp3" else "mp4"))))).
Proof.
  induction todo as [|a rest IH]; intros last w r; subst r.
  - exists 0%nat. split; [reflexivity|]. left.
    rewrite attempts_nil. repeat split. right. split; reflexivity.
  - destruct (_stop_requested (self w)) eqn:Hflag.
    { exists 0%nat. split; [simpl; lia|]. left.
      rewrite attempts_stopped by exact Hflag. repeat split.
      left. repeat split; [simpl; lia|exact Hflag]. }
    destruct (failure (engine w (S (invocations w)))) as [e|] eqn:Hfail.
    + rewrite (attempts_failed _ _ _ a rest last w e Hflag Hfail). cbv zeta.
      destruct (IH (Some e) (after_sleep (after_invocation w)))
        as (k & Hk & Hcases).
      exists (S k). split; [simpl; lia|].
      cbn [trace final outcome take after_failures].
      change (failed_attempts url opts (a :: take k rest))
        with ([ExtractInfo url opts; Sleep (1 + a)]
                ++ failed_attempts url opts (take k rest)).
      rewrite <- (last_error_step k last w e Hfail).
      destruct (same_env_trans _ _ _ (after_invocation_env w)
                  (after_sleep_env (after_invocation w)))
        as (Heng & _ & _ & _ & _ & Hdir).
      destruct Hcases as [(Ht & Hf & Hc)|(Hlt & Ht & Hf & info & Hres & Hout)].
      * left. rewrite Ht, Hf. repeat split.
        destruct Hc as [(Hlt & Hs & Ho)|(Hl & Ho)].
        -- left. repeat split; [simpl; lia|exact Hs|exact Ho].
        -- right. split; [simpl; lia|exact Ho].
      * right. rewrite Ht, Hf, <- app_assoc.
        split; [simpl; lia|]. repeat split.
        exists info. split.
        -- rewrite Heng, after_sleep_count, after_invocation_count in Hres.
           replace (S (invocations w + S k)) with (S (S (invocations w) + k)) by lia.
           exact Hres.
        -- rewrite Hout, Hdir. reflexivity.
    + destruct (failure_none _ Hfail) as [info Hres].
      exists 0%nat. split; [simpl; lia|]. right.
      rewrite (attempts_succeeded _ _ _ a rest last w info Hflag Hres).
      split; [simpl; lia|]. repeat split.
      exists info. rewrite Nat.add_0_r. split; [exact Hres|reflexivity].
Qed.

End Shape.

(** ** The shape of every run of [download] *)

(** Path resolution either raises what [makedirs] raises or returns the
    template with the directory in place; directories are only added, and
    only the output directory and its parents. *)
Lemma resolve_cases dir w :
  let r0 := safe_output_template dir w in
  exists ds, final r0 = with_dirs w ds /\ (dirs w ⊆ ds) /\
    (ds ⊆ dirs w ∪ list_to_set (ancestors dir)) /\
    ((exists e, outcome r0 = inl e /\ makedirs_error e) \/
     (outcome r0 = inr (path_join dir pattern) /\
      is_dir (with_dirs w ds) dir = true)).
Proof.
  cbv zeta. rewrite safe_output_template_run.
  destruct (is_dir w dir) eqn:Hd; cbn [trace final outcome].
  - exists (dirs w). split; [destruct w; reflexivity|]. split; [reflexivity|].
    split; [apply union_subseteq_l|].
    right. split; [reflexivity|]. exact Hd.
  - destruct (makedirs_bounds dir w) as (ds & Hf & Hsub & Hup).
    pose proof (makedirs_outcome dir w) as Hmk.
    exists ds. split; [exact Hf|]. split; [exact Hsub|]. split; [exact Hup|].
    destruct (outcome (makedirs dir w)) as [e|[]].
    + left. exists e. split; [reflexivity|apply Hmk].
    + right. split; [reflexivity|]. rewrite <- Hf. apply Hmk.
Qed.

Lemma download_shape url output_format max_retries w :
  let r := download url output_format max_retries w in
  let dir := output_dir (self w) in
  let r0 := safe_output_template dir w in
  (output_format <> "mp4" /\ output_format <> "mp3" /\
   r = Run [] w (inl invalid_format)) \/
  (output_format = "mp3" /\ ("ffmpeg" ∉ on_path w) /\
   r = Run [Which "ffmpeg"] w (inl ffmpeg_missing)) \/
  (admissible output_format w /\
   exists ds, final r0 = with_dirs w ds /\ (dirs w ⊆ ds) /\
     (ds ⊆ dirs w ∪ list_to_set (ancestors dir)) /\
     ((exists e, makedirs_error e /\
         r = Run (probe_trace output_format ++ trace r0) (with_dirs w ds) (inl e)) \/
      (is_dir (with_dirs w ds) dir = true /\
       let loop := attempts url output_format
                     (build_opts (self w) (path_join dir pattern)
                                 output_format max_retries)
                     (range 1 (max_retries + 1)) None (with_dirs w ds) in
       r = Run (probe_trace output_format ++ trace r0 ++ trace loop)
               (final loop) (outcome loop)))).
Proof.
  cbv zeta.
  destruct (format_cases output_format w) as [Hadm|[[H4 H3]|[-> Hff]]].
  - right. right. split; [exact Hadm|].
    rewrite (download_run _ _ _ _ Hadm). cbv zeta.
    destruct (resolve_cases (output_dir (self w)) w) as (ds & Hf & Hsub & Hup & Hc).
    exists ds. split; [exact Hf|]. split; [exact Hsub|]. split; [exact Hup|].
    destruct Hc as [(e & He & Hcl)|(Ht & Hd)].
    + left. exists e. rewrite He, Hf. split; [exact Hcl|reflexivity].
    + right. rewrite Ht, Hf. split; [exact Hd|reflexivity].
  - left. split; [exact H4|]. split; [exact H3|].
    apply download_invalid_format; assumption.
  - right. left. split; [reflexivity|]. split; [exact Hff|].
    apply download_ffmpeg_missing; assumption.
Qed.

Lemma invocation_in_failed url opts todo :
  forall u o, ExtractInfo u o ∈ failed_attempts url opts todo -> u = url /\ o = opts.
Proof.
  induction todo as [|a todo IH]; intros u o H; unfold failed_attempts in *;
    cbn [flat_map] in H.
  - apply elem_of_nil in H. contradiction.
  - apply elem_of_app in H as [H|H]; [|apply IH, H].
    apply elem_of_cons in H as [H|H]; [injection H as -> ->; auto|].
    apply elem_of_cons in H as [H|H]; [discriminate|].
    apply elem_of_nil in H. contradiction.
Qed.

Lemma no_invocation_in_quiet t :
  engine_calls t = 0%nat -> forall u o, ExtractInfo u o ∉ t.
Proof.
  induction t as [|e t IH]; intros H u o Hin.
  - apply elem_of_nil in Hin. contradiction.
  - unfold engine_calls in H. rewrite filter_cons in H.
    apply elem_of_cons in Hin as [<-|Hin].
    + cbn in H. discriminate.
    + destruct (decide (is_invocation e = true)); [discriminate|].
      exact (IH H u o Hin).
Qed.

Lemma engine_calls_one u o : engine_calls [ExtractInfo u o] = 1%nat.
Proof. reflexivity. Qed.

Lemma waits_one u o : waits [ExtractInfo u o] = [].
Proof. reflexivity. Qed.

Lemma length_take_le {A} (k : nat) (l : list A) :
  (k <= length l)%nat -> length (take k l) = k.
Proof. intros H. rewrite length_take. lia. Qed.

Lemma download_bounds url output_format max_retries w :
  let r := download url output_format max_retries w in
  (engine_calls (trace r) <= Z.to_nat max_retries)%nat /\
  (length (waits (trace r)) <= engine_calls (trace r))%nat /\
  exists k, waits (trace r) = take k (range 2 (max_retries + 2)).
Proof.
  cbv zeta.
  assert (Hquiet : forall t, engine_calls t = 0%nat -> waits t = [] ->
            (engine_calls t <= Z.to_nat max_retries)%nat /\
            (length (waits t) <= engine_calls t)%nat /\
            exists k, waits t = take k (range 2 (max_retries + 2))).
  { intros t -> ->. split; [lia|]. split; [reflexivity|]. exists 0%nat. reflexivity. }
  destruct (download_shape url output_format max_retries w)
    as [(_ & _ & ->)|[(_ & _ & ->)|(_ & ds & _ & _ & _ & Hc)]].
  - apply Hquiet; reflexivity.
  - apply Hquiet; reflexivity.
  - destruct (safe_output_template_quiet (output_dir (self w)) w) as [Hq1 Hq2].
    destruct (probe_trace_quiet output_format) as [Hp1 Hp2].
    destruct Hc as [(e & _ & ->)|(_ & ->)]; cbn [trace].
    + apply Hquiet; [rewrite engine_calls_app, Hq1, Hp1|rewrite waits_app, Hq2, Hp2];
        reflexivity.
    + rewrite !engine_calls_app, !waits_app, Hq1, Hq2, Hp1, Hp2.
      cbn [app Nat.add].
      match goal with |- context [attempts ?u ?f ?o ?td ?l ?w'] =>
        destruct (attempts_shape u f o td l w') as (k & Hk & Hs) end.
      rewrite length_range in Hk.
      replace (max_retries + 1 - 1) with max_retries in Hk by lia.
      assert (Hw : map (fun a => 1 + a) (take k (range 1 (max_retries + 1)))
                   = take k (range 2 (max_retries + 2))).
      { replace (range 2 (max_retries + 2))
          with (map (fun a => 1 + a) (range 1 (max_retries + 1)))
          by (rewrite range_succ; f_equal; lia).
        symmetry. apply firstn_map. }
      assert (Hl : length (take k (range 1 (max_retries + 1))) = k).
      { apply length_take_le. rewrite length_range. lia. }
      destruct Hs as [(Ht & _)|(Hlt & Ht & _)]; rewrite Ht.
      * rewrite engine_calls_failed, waits_failed, Hw, Hl.
        split; [lia|]. split; [rewrite <- Hw, length_map, Hl; lia|].
        exists k. reflexivity.
      * rewrite engine_calls_app, waits_app, engine_calls_failed, waits_failed, Hw, Hl.
        rewrite engine_calls_one, waits_one, app_nil_r.
        rewrite length_range in Hlt.
        split; [lia|]. split; [rewrite <- Hw, length_map, Hl; lia|].
        exists k. reflexivity.
Qed.

(** X9: whatever the engine and the other thread do, a download invokes
    the engine at most max_retries times, waits only after an engine
    invocation, and its waits are the first ones of 2, 3, 4, ... in that
    order. *)
Theorem download_attempts_are_bounded url output_format max_retries w :
  let r := download url output_format max_retries w in
  (engine_calls (trace r) <= Z.to_nat max_retries)%nat /\
  (length (waits (trace r)) <= engine_calls (trace r))%nat /\
  exists k, waits (trace r) = take k (range 2 (max_retries + 2)).
Proof. apply download_bounds. Qed.

(** X10: every engine invocation of one download gets the url of the
    request and the same options, built before the loop: the retry count
    handed to the engine is max_retries itself and the output template
    is the output directory joined with the fixed pattern. *)
Theorem download_invocations_share_options url output_format max_retries w u o :
  ExtractInfo u o ∈ trace (download url output_format max_retries w) ->
  u = url /\
  o = build_opts (self w) (path_join (output_dir (self w)) pattern)
                 output_format max_retries /\
  retries o = max_retries /\
  outtmpl o = path_join (output_dir (self w)) pattern.
Proof.
  intros Hin.
  assert (Hopts : forall t : string,
            retries (build_opts (self w) t output_format max_retries) = max_retries /\
            outtmpl (build_opts (self w) t output_format max_retries) = t).
  { intros t. unfold build_opts. destruct (String.eqb _ _); split; reflexivity. }
  enough (u = url /\
          o = build_opts (self w) (path_join (output_dir (self w)) pattern)
                         output_format max_retries) as [-> ->].
  { split; [reflexivity|]. split; [reflexivity|]. apply Hopts. }
  destruct (safe_output_template_quiet (output_dir (self w)) w) as [Hq1 _].
  destruct (probe_trace_quiet output_format) as [Hp1 _].
  destruct (download_shape url output_format max_retries w)
    as [(_ & _ & Hr)|[(_ & _ & Hr)|(_ & ds & _ & _ & _ & Hc)]].
  - rewrite Hr in Hin. apply elem_of_nil in Hin. contradiction.
  - rewrite Hr in Hin. cbn in Hin.
    apply elem_of_cons in Hin as [Hin|Hin]; [discriminate|].
    apply elem_of_nil in Hin. contradiction.
  - destruct Hc as [(e & _ & Hr)|(_ & Hr)]; rewrite Hr in Hin; cbn [trace] in Hin.
    + apply elem_of_app in Hin as [Hin|Hin]; exfalso.
      * exact (no_invocation_in_quiet _ Hp1 _ _ Hin).
      * exact (no_invocation_in_quiet _ Hq1 _ _ Hin).
    + apply elem_of_app in Hin as [Hin|Hin];
        [exfalso; exact (no_invocation_in_quiet _ Hp1 _ _ Hin)|].
      apply elem_of_app in Hin as [Hin|Hin];
        [exfalso; exact (no_invocation_in_quiet _ Hq1 _ _ Hin)|].
      match type of Hin with context [attempts ?u' ?f ?o' ?td ?l ?w'] =>
        destruct (attempts_shape u' f o' td l w') as (k & _ & Hs) end.
      destruct Hs as [(Ht & _)|(_ & Ht & _)]; rewrite Ht in Hin.
      * eapply invocation_in_failed; exact Hin.
      * apply elem_of_app in Hin as [Hin|Hin]; [eapply invocation_in_failed; exact Hin|].
        apply elem_of_cons in Hin as [Hin|Hin]; [injection Hin as -> ->; auto|].
        apply elem_of_nil in Hin. contradiction.
Qed.

Lemma download_invocations_share_options_witness :
  "https://x/video" = "https://x/video" /\
  build_opts (__init__ "/tmp/out" false) "/tmp/out/%(title)s [%(id)s].%(ext)s" "mp4" 3 =
  build_opts (self (world_of timeout_then_clip ∅ ∅))
             (path_join (output_dir (self (world_of timeout_then_clip ∅ ∅))) pattern)
             "mp4" 3 /\
  retries (build_opts (__init__ "/tmp/out" false)
             "/tmp/out/%(title)s [%(id)s].%(ext)s" "mp4" 3) = 3 /\
  outtmpl (build_opts (__init__ "/tmp/out" false)
             "/tmp/out/%(title)s [%(id)s].%(ext)s" "mp4" 3) =
  path_join (output_dir (self (world_of timeout_then_clip ∅ ∅))) pattern.
Proof.
  apply (download_invocations_share_options "https://x/video" "mp4" 3
           (world_of timeout_then_clip ∅ ∅)).
  vm_compute. apply list_elem_of_In. right. right. left. reflexivity.
Defined.

(** Every run of [download], case by case. [pre] is the part of the trace
    before the loop. *)
Lemma download_outcomes url output_format max_retries w :
  let r := download url output_format max_retries w in
  let dir := output_dir (self w) in
  (output_format <> "mp4" /\ output_format <> "mp3" /\
   r = Run [] w (inl invalid_format)) \/
  (output_format = "mp3" /\ ("ffmpeg" ∉ on_path w) /\
   r = Run [Which "ffmpeg"] w (inl ffmpeg_missing)) \/
  (admissible output_format w /\
   exists pre ds, engine_calls pre = 0%nat /\ waits pre = [] /\ (dirs w ⊆ ds) /\
     (ds ⊆ dirs w ∪ list_to_set (ancestors dir)) /\
     ((exists e, makedirs_error e /\ r = Run pre (with_dirs w ds) (inl e)) \/
      (is_dir (with_dirs w ds) dir = true /\
       exists k opts, (k <= Z.to_nat max_retries)%nat /\
         let w' := with_dirs w ds in
         let failed := failed_attempts url opts (take k (range 1 (max_retries + 1))) in
         (((k < Z.to_nat max_retries)%nat /\
           _stop_requested (self (after_failures k w')) = true /\
           r = Run (pre ++ failed) (after_failures k w') (inl cancelled)) \/
          (k = Z.to_nat max_retries /\
           r = Run (pre ++ failed) (after_failures k w')
                   (inl (all_failed (last_error k None w')))) \/
          ((k < Z.to_nat max_retries)%nat /\
           exists info,
             result (engine w (S (invocations w + k))) = Returns (Some info) /\
             r = Run (pre ++ failed ++ [ExtractInfo url opts])
                     (after_invocation (after_failures k w'))
                     (inr (path_join dir (filename_of info output_format)))))))).
Proof.
  cbv zeta.
  destruct (download_shape url output_format max_retries w)
    as [H|[H|(Hadm & ds & _ & Hsub & Hup & Hc)]]; [left; exact H|right; left; exact H|].
  right. right. split; [exact Hadm|].
  destruct (safe_output_template_quiet (output_dir (self w)) w) as [Hq1 Hq2].
  destruct (probe_trace_quiet output_format) as [Hp1 Hp2].
  exists (probe_trace output_format
            ++ trace (safe_output_template (output_dir (self w)) w)), ds.
  rewrite engine_calls_app, waits_app, Hq1, Hq2, Hp1, Hp2.
  split; [reflexivity|]. split; [reflexivity|]. split; [exact Hsub|].
  split; [exact Hup|].
  destruct Hc as [He|(Hd & Hr)]; [left; exact He|right].
  split; [exact Hd|]. cbv zeta in Hr. rewrite Hr.
  match goal with |- context [attempts ?u ?f ?o ?td ?l ?w'] =>
    destruct (attempts_shape u f o td l w') as (k & Hk & Hs);
    exists k, o end.
  rewrite length_range in Hk, Hs.
  replace (max_retries + 1 - 1) with max_retries in Hk, Hs by lia.
  split; [exact Hk|]. cbv zeta.
  rewrite (admissible_ext _ _ Hadm) in Hs.
  destruct Hs as [(Ht & Hf & [(Hlt & Hs & Ho)|(Hl & Ho)])|(Hlt & Ht & Hf & info & Hres & Ho)].
  - left. split; [exact Hlt|]. split; [exact Hs|].
    rewrite Ht, Hf, Ho, <- app_assoc. reflexivity.
  - right. left. split; [exact Hl|].
    rewrite Ht, Hf, Ho, <- app_assoc. reflexivity.
  - right. right. split; [exact Hlt|]. exists info. split; [exact Hres|].
    rewrite Ht, Hf, Ho, <- !app_assoc. reflexivity.
Qed.

Lemma all_failed_not_cancelled last : all_failed last <> cancelled.
Proof. unfold all_failed, cancelled, RuntimeError. intros H. discriminate. Qed.




(** X12: [download] reports a cancellation only if [stop] has been
    called: when it raises "Download stopped by user." the flag of the
    downloader is set. *)
Theorem cancellation_only_after_stop url output_format max_retries w :
  outcome (download url output_format max_retries w) = inl cancelled ->
  _stop_requested (self (final (download url output_format max_retries w))) = true.
Proof.
  intros H.
  destruct (download_outcomes url output_format max_retries w)
    as [(_ & _ & Hr)|[(_ & _ & Hr)|(_ & pre & ds & _ & _ & _ & _ & Hc)]].
  - rewrite Hr in H. discriminate.
  - rewrite Hr in H. discriminate.
  - destruct Hc as [(e' & Hcl & Hr)|(_ & k & opts & _ & Hc)].
    + rewrite Hr in H. injection H as ->. exfalso.
      destruct Hcl as [Hcl|Hcl]; [vm_compute in Hcl|]; discriminate.
    + cbv zeta in Hc.
      destruct Hc as [(_ & Hs & Hr)|[(_ & Hr)|(_ & info & _ & Hr)]];
        rewrite Hr in *.
      * exact Hs.
      * exfalso. apply (inj inl) in H. exact (all_failed_not_cancelled _ H).
      * discriminate.
Qed.

Lemma cancellation_only_after_stop_witness :
  _stop_requested (self (final (download "https://x/video" "mp4" 3 stopped_world))) = true.
Proof.
  apply (cancellation_only_after_stop "https://x/video" "mp4" 3 stopped_world).
  vm_compute. reflexivity.
Defined.

Lemma is_dir_dirs w w' p : dirs w' = dirs w -> is_dir w' p = is_dir w p.
Proof. intros H. unfold is_dir. rewrite H. reflexivity. Qed.

(** X13: [download] returns a path only when an engine invocation has
    returned a result: the request was valid, the output directory exists
    by then, the invocation that returned is the last one made and is at
    most the max_retries-th, and the path is the output directory joined
    with the file name built from that result. *)
Theorem download_success_is_engine_success url output_format max_retries w p :
  let r := download url output_format max_retries w in
  outcome r = inr p ->
  admissible output_format w /\
  is_dir (final r) (output_dir (self w)) = true /\
  exists info k,
    (k < Z.to_nat max_retries)%nat /\
    engine_calls (trace r) = S k /\
    result (engine w (S (invocations w + k))) = Returns (Some info) /\
    p = path_join (output_dir (self w)) (filename_of info output_format).
Proof.
  cbv zeta. intros H.
  destruct (download_outcomes url output_format max_retries w)
    as [(_ & _ & Hr)|[(_ & _ & Hr)|(Hadm & pre & ds & Hq & _ & _ & _ & Hc)]].
  - rewrite Hr in H. discriminate.
  - rewrite Hr in H. discriminate.
  - split; [exact Hadm|].
    destruct Hc as [(e' & Hcl & Hr)|(Hd & k & opts & Hk & Hc)].
    + rewrite Hr in H. discriminate.
    + cbv zeta in Hc.
      destruct Hc as [(_ & _ & Hr)|[(_ & Hr)|(Hlt & info & Hres & Hr)]];
        rewrite Hr in *; try discriminate.
      injection H as <-. cbn [trace final outcome]. split.
      * rewrite <- Hd. apply is_dir_dirs.
        destruct (same_env_trans _ _ _ (after_failures_env k (with_dirs w ds))
                    (after_invocation_env (after_failures k (with_dirs w ds))))
          as (_ & _ & _ & -> & _).
        reflexivity.
      * exists info, k. split; [exact Hlt|].
        rewrite !engine_calls_app, Hq, engine_calls_failed, engine_calls_one.
        rewrite length_take_le by (rewrite length_range; lia).
        split; [lia|]. split; [exact Hres|reflexivity].
Qed.

Lemma download_success_is_engine_success_witness :
  admissible "mp4" (world_of timeout_then_clip ∅ ∅) /\
  is_dir (final (download "https://x/video" "mp4" 3 (world_of timeout_then_clip ∅ ∅)))
         "/tmp/out" = true /\
  exists info k,
    (k < 3)%nat /\
    engine_calls (trace (download "https://x/video" "mp4" 3
                           (world_of timeout_then_clip ∅ ∅))) = S k /\
    result (timeout_then_clip (S k)) = Returns (Some info) /\
    "/tmp/out/Clip [abc123].mp4" = path_join "/tmp/out" (filename_of info "mp4").
Proof.
  apply (download_success_is_engine_success "https://x/video" "mp4" 3
           (world_of timeout_then_clip ∅ ∅) "/tmp/out/Clip [abc123].mp4").
  vm_compute. reflexivity.
Defined.

(** X14: what [download] itself does to the file system and to the
    object (the files the engine writes are not part of the world). It
    removes no directory and adds none but the output directory and its
    parents, whatever the request, the engine and the outcome; and it
    leaves the output directory of the object and PATH as they are. *)
Theorem download_frame url output_format max_retries w :
  let r := download url output_format max_retries w in
  dirs w ⊆ dirs (final r) /\
  dirs (final r) ⊆ dirs w ∪ list_to_set (ancestors (output_dir (self w))) /\
  output_dir (self (final r)) = output_dir (self w) /\
  on_path (final r) = on_path w.
Proof.
  cbv zeta.
  assert (Hfin : forall t (w1 : world) (o : exn + string) ds,
            dirs w1 = ds -> dirs w ⊆ ds ->
            ds ⊆ dirs w ∪ list_to_set (ancestors (output_dir (self w))) ->
            output_dir (self w1) = output_dir (self w) ->
            on_path w1 = on_path w ->
            dirs w ⊆ dirs (final (Run t w1 o)) /\
            dirs (final (Run t w1 o))
              ⊆ dirs w ∪ list_to_set (ancestors (output_dir (self w))) /\
            output_dir (self (final (Run t w1 o))) = output_dir (self w) /\
            on_path (final (Run t w1 o)) = on_path w).
  { intros t w1 o ds H1 H2 H3 H4 H5. cbn [final]. rewrite H1. auto. }
  destruct (download_outcomes url output_format max_retries w)
    as [(_ & _ & ->)|[(_ & _ & ->)|(_ & pre & ds & _ & _ & Hsub & Hup & Hc)]].
  - apply (Hfin _ _ _ (dirs w)); try reflexivity. apply union_subseteq_l.
  - apply (Hfin _ _ _ (dirs w)); try reflexivity. apply union_subseteq_l.
  - destruct Hc as [(e' & Hcl & ->)|(_ & k & opts & Hk & Hc)].
    + apply (Hfin _ _ _ ds); try reflexivity; assumption.
    + cbv zeta in Hc.
      pose proof (after_failures_env k (with_dirs w ds)) as (_ & _ & Hp & Hds & _ & Hod).
      destruct Hc as [(_ & _ & ->)|[(_ & ->)|(_ & info & _ & ->)]].
      * apply (Hfin _ _ _ ds); [exact Hds|exact Hsub|exact Hup|exact Hod|exact Hp].
      * apply (Hfin _ _ _ ds); [exact Hds|exact Hsub|exact Hup|exact Hod|exact Hp].
      * destruct (after_invocation_env (after_failures k (with_dirs w ds)))
          as (_ & _ & Hp' & Hds' & _ & Hod').
        apply (Hfin _ _ _ ds); [rewrite Hds'; exact Hds|exact Hsub|exact Hup| | ].
        -- rewrite Hod'. exact Hod.
        -- rewrite Hp'. exact Hp.
Qed.

(** X15: with max_retries at most 0 the loop body never runs: a valid
    request makes no engine invocation and no wait and raises "All attempts
    failed. Last error: None", also when [stop] has been called before. *)
Theorem download_without_attempts url output_format max_retries w :
  admissible output_format w ->
  dir_ready w = true ->
  max_retries <= 0 ->
  let r := download url output_format max_retries w in
  engine_calls (trace r) = 0%nat /\ waits (trace r) = [] /\
  outcome r = inl (RuntimeError "All attempts failed. Last error: None").
Proof.
  intros Hadm Hdir HN r. subst r.
  rewrite (download_run _ _ _ _ Hadm). cbv zeta.
  destruct (dir_ready_outcome w Hdir) as [t ->].
  destruct (safe_output_template_quiet (output_dir (self w)) w) as [Hq1 Hq2].
  destruct (probe_trace_quiet output_format) as [Hp1 Hp2].
  replace (range 1 (max_retries + 1)) with (@nil Z)
    by (unfold range; replace (Z.to_nat (max_retries + 1 - 1)) with 0%nat by lia;
        reflexivity).
  rewrite attempts_nil. cbn [trace final outcome].
  rewrite app_nil_r, engine_calls_app, waits_app, Hq1, Hq2, Hp1, Hp2.
  repeat split.
Qed.

Lemma download_without_attempts_witness :
  let r := download "https://x/video" "mp4" 0 stopped_world in
  engine_calls (trace r) = 0%nat /\ waits (trace r) = [] /\
  outcome r = inl (RuntimeError "All attempts failed. Last error: None").
Proof.
  apply (download_without_attempts "https://x/video" "mp4" 0 stopped_world).
  - left. reflexivity.
  - vm_compute. reflexivity.
  - lia.
Defined.

(** X16: a call of [stop] while an engine invocation is running does not
    interrupt it: when that invocation returns a result the download
    returns its path all the same, with the flag set afterwards. *)
Theorem stop_during_successful_call_comes_too_late
    url output_format max_retries w info :
  admissible output_format w ->
  dir_ready w = true ->
  1 <= max_retries ->
  _stop_requested (self w) = false ->
  result (engine w (S (invocations w))) = Returns (Some info) ->
  stop_during_call (engine w (S (invocations w))) = true ->
  let r := download url output_format max_retries w in
  outcome r = inr (path_join (output_dir (self w)) (filename_of info output_format)) /\
  engine_calls (trace r) = 1%nat /\
  _stop_requested (self (final r)) = true.
Proof.
  intros Hadm Hdir HN Hflag Hres Hstop r. subst r.
  rewrite (download_run _ _ _ _ Hadm). cbv zeta.
  destruct (dir_ready_outcome w Hdir) as [t ->].
  destruct (safe_output_template_final (output_dir (self w)) w) as [ds ->].
  destruct (safe_output_template_quiet (output_dir (self w)) w) as [Hq1 _].
  destruct (probe_trace_quiet output_format) as [Hp1 _].
  rewrite (range_cons 1 (max_retries + 1)) by lia.
  rewrite (attempts_succeeded _ _ _ _ _ _ (with_dirs w ds) info Hflag Hres).
  cbn [trace final outcome].
  rewrite (admissible_ext _ _ Hadm).
  split; [reflexivity|]. split.
  - rewrite !engine_calls_app, Hq1, Hp1. reflexivity.
  - rewrite after_invocation_flag.
    change (engine (with_dirs w ds)) with (engine w).
    change (invocations (with_dirs w ds)) with (invocations w).
    rewrite Hstop. apply orb_true_r.
Qed.

Lemma stop_during_successful_call_comes_too_late_witness :
  let r := download "https://x/video" "mp4" 3 (world_of clip_while_stopping ∅ ∅) in
  outcome r = inr "/tmp/out/Clip [abc123].mp4" /\
  engine_calls (trace r) = 1%nat /\
  _stop_requested (self (final r)) = true.
Proof.
  apply (stop_during_successful_call_comes_too_late "https://x/video" "mp4" 3
           (world_of clip_while_stopping ∅ ∅) clip_info).
  - left. reflexivity.
  - vm_compute. reflexivity.
  - lia.
  - reflexivity.
  - reflexivity.
  - reflexivity.
Defined.

Lemma after_failures_snoc k : forall w,
  after_failures (S k) w = after_sleep (after_invocation (after_failures k w)).
Proof.
  induction k as [|k IH]; intros w; [reflexivity|].
  change (after_failures (S (S k)) w)
    with (after_failures (S k) (after_sleep (after_invocation w))).
  rewrite IH. reflexivity.
Qed.

(** All attempts fail, whatever the failure is. *)
Lemma attempts_exhausted url output_format opts todo last w :
  (forall i, (i < length todo)%nat ->
     _stop_requested (self (after_failures i w)) = false /\
     failure (engine w (S (invocations w + i))) <> None) ->
  attempts url output_format opts todo last w =
    Run (failed_attempts url opts todo) (after_failures (length todo) w)
        (inl (all_failed (last_error (length todo) last w))).
Proof.
  intros H.
  rewrite <- (app_nil_r todo) at 1.
  rewrite attempts_failures by exact H.
  cbv zeta. rewrite attempts_nil. cbn [trace final outcome].
  rewrite app_nil_r. reflexivity.
Qed.

(** X17: a call of [stop] during the sleep that follows the last attempt
    changes nothing of the result: the download still raises the error
    that quotes the last failure, not the cancellation error. *)
Theorem stop_during_last_backoff_is_not_reported
    url output_format max_retries w :
  admissible output_format w ->
  dir_ready w = true ->
  1 <= max_retries ->
  undisturbed w (Z.to_nat max_retries - 1) ->
  failing w (Z.to_nat max_retries) ->
  stop_in_backoff w (invocations w + Z.to_nat max_retries) = true ->
  let r := download url output_format max_retries w in
  (exists e,
     result (engine w (invocations w + Z.to_nat max_retries)) = Raises e /\
     outcome r = inl (all_failed (Some e))) /\
  outcome r <> inl cancelled /\
  _stop_requested (self (final r)) = true.
Proof.
  intros Hadm Hdir HN Hu Hf Hstop r. subst r.
  destruct (download_all_fail url _ _ _ Hadm Hdir HN Hu Hf)
    as (pre & opts & e & _ & _ & _ & He & Hout).
  split; [exists e; split; [exact He|exact Hout]|].
  split.
  { rewrite Hout. intros H. apply (inj inl) in H.
    exact (all_failed_not_cancelled _ H). }
  rewrite (download_run _ _ _ _ Hadm). cbv zeta.
  destruct (dir_ready_outcome w Hdir) as [t ->].
  destruct (safe_output_template_final (output_dir (self w)) w) as [ds ->].
  assert (Hlen : length (range 1 (max_retries + 1)) = Z.to_nat max_retries)
    by (rewrite length_range; f_equal; lia).
  rewrite attempts_all_fail.
  - cbn [final]. rewrite Hlen.
    destruct (Z.to_nat max_retries) as [|k] eqn:Hk; [lia|].
    rewrite after_failures_snoc, after_sleep_flag.
    destruct (same_env_trans _ _ _ (after_failures_env k (with_dirs w ds))
                (after_invocation_env (after_failures k (with_dirs w ds))))
      as (_ & -> & _).
    rewrite after_invocation_count, after_failures_count.
    change (stop_in_backoff (with_dirs w ds)) with (stop_in_backoff w).
    change (invocations (with_dirs w ds)) with (invocations w).
    replace (S (invocations w + k)) with (invocations w + S k)%nat by lia.
    rewrite Hstop. apply orb_true_r.
  - rewrite Hlen. exact Hu.
  - rewrite Hlen. exact Hf.
  - intros E. rewrite E in Hlen. simpl in Hlen. lia.
Qed.

Lemma stop_during_last_backoff_is_not_reported_witness :
  let r := download "https://x/video" "mp4" 1 boom_then_stop in
  (exists e,
     result (always_boom 1) = Raises e /\ outcome r = inl (all_failed (Some e))) /\
  outcome r <> inl cancelled /\
  _stop_requested (self (final r)) = true.
Proof.
  apply (stop_during_last_backoff_is_not_reported "https://x/video" "mp4" 1
           boom_then_stop).
  - left. reflexivity.
  - vm_compute. reflexivity.
  - lia.
  - split; [reflexivity|]. intros n Hn. cbn in Hn. lia.
  - intros n _. eexists. reflexivity.
  - reflexivity.
Defined.

(** X18: an engine invocation that returns [None] is a failed attempt
    like any other: [info.get] raises an AttributeError inside the [try]
    block. When every invocation does so the download makes max_retries
    invocations and raises the final error quoting that AttributeError. *)
Theorem none_result_is_a_failed_attempt url output_format max_retries w :
  admissible output_format w ->
  dir_ready w = true ->
  1 <= max_retries ->
  undisturbed w (Z.to_nat max_retries - 1) ->
  (forall n, (invocations w < n <= invocations w + Z.to_nat max_retries)%nat ->
     result (engine w n) = Returns None) ->
  let r := download url output_format max_retries w in
  engine_calls (trace r) = Z.to_nat max_retries /\
  waits (trace r) = range 2 (max_retries + 2) /\
  outcome r = inl (RuntimeError
    "All attempts failed. Last error: 'NoneType' object has no attribute 'get'").
Proof.
  intros Hadm Hdir HN Hu Hnone r. subst r.
  rewrite (download_run _ _ _ _ Hadm). cbv zeta.
  destruct (dir_ready_outcome w Hdir) as [t ->].
  destruct (safe_output_template_final (output_dir (self w)) w) as [ds ->].
  destruct (safe_output_template_quiet (output_dir (self w)) w) as [Hq1 Hq2].
  destruct (probe_trace_quiet output_format) as [Hp1 Hp2].
  assert (Hlen : length (range 1 (max_retries + 1)) = Z.to_nat max_retries)
    by (rewrite length_range; f_equal; lia).
  assert (Hfail : forall n,
            (invocations w < n <= invocations w + Z.to_nat max_retries)%nat ->
            failure (engine w n) =
              Some (AttributeError "'NoneType' object has no attribute 'get'")).
  { intros n Hn. unfold failure. rewrite (Hnone n Hn). reflexivity. }
  rewrite attempts_exhausted.
  - cbn [trace final outcome].
    rewrite !engine_calls_app, !waits_app, Hq1, Hq2, Hp1, Hp2.
    rewrite engine_calls_failed, waits_failed, Hlen, range_succ.
    split; [reflexivity|]. split; [cbn [app]; f_equal; lia|].
    unfold last_error.
    destruct (Z.to_nat max_retries) as [|k] eqn:Hk; [lia|].
    change (engine (with_dirs w ds)) with (engine w).
    change (invocations (with_dirs w ds)) with (invocations w).
    rewrite Hfail by lia. reflexivity.
  - rewrite Hlen. intros i Hi. split.
    + apply after_failures_flag. apply undisturbed_with_dirs.
      eapply undisturbed_le; [|exact Hu]. lia.
    + change (engine (with_dirs w ds)) with (engine w).
      change (invocations (with_dirs w ds)) with (invocations w).
      rewrite Hfail by lia. discriminate.
Qed.

Lemma none_result_is_a_failed_attempt_witness :
  let r := download "https://x/video" "mp4" 2 (world_of always_none ∅ ∅) in
  engine_calls (trace r) = 2%nat /\
  waits (trace r) = [2; 3] /\
  outcome r = inl (RuntimeError
    "All attempts failed. Last error: 'NoneType' object has no attribute 'get'").
Proof.
  apply (none_result_is_a_failed_attempt "https://x/video" "mp4" 2
           (world_of always_none ∅ ∅)).
  - left. reflexivity.
  - vm_compute. reflexivity.
  - lia.
  - apply world_of_undisturbed. reflexivity.
  - reflexivity.
Defined.

(** ** Path resolution and the final path *)

(** X19: [safe_output_template] is idempotent. Once it has returned, a
    second call on the same directory finds it in place: it only tests
    the directory, creates nothing, changes nothing and returns the same
    template. *)
Theorem safe_output_template_idempotent dir w t :
  outcome (safe_output_template dir w) = inr t ->
  let w1 := final (safe_output_template dir w) in
  t = path_join dir pattern /\
  safe_output_template dir w1 = Run [Isdir dir] w1 (inr t).
Proof.
  intros H w1. subst w1.
  destruct (resolve_cases dir w) as (ds & Hf & _ & _ & Hc). cbv zeta in Hf, Hc.
  destruct Hc as [(e & He & _)|(Ht & Hd)]; [rewrite He in H; discriminate|].
  rewrite Ht in H. injection H as <-. split; [reflexivity|].
  rewrite Hf, safe_output_template_run, Hd. reflexivity.
Qed.

Lemma safe_output_template_idempotent_witness :
  let w1 := final (safe_output_template "/tmp/out" (world_of always_boom ∅ ∅)) in
  "/tmp/out/%(title)s [%(id)s].%(ext)s" = path_join "/tmp/out" pattern /\
  safe_output_template "/tmp/out" w1 =
    Run [Isdir "/tmp/out"] w1 (inr "/tmp/out/%(title)s [%(id)s].%(ext)s").
Proof.
  apply (safe_output_template_idempotent "/tmp/out" (world_of always_boom ∅ ∅)).
  vm_compute. reflexivity.
Defined.

Lemma starts_with_slash_app (a b : string) :
  starts_with_slash (a +:+ " " +:+ b) = starts_with_slash a.
Proof. destruct a; reflexivity. Qed.

(** X20: where the returned path lies. The file name starts with the
    title, or with the id when the title is missing, [None] or empty. When
    that starts with a slash, [os.path.join] drops the output directory
    and the path is the bare file name; otherwise the path is the output
    directory, a slash unless the directory is empty or ends with one, and
    the file name. *)
Theorem final_path_containment (s : downloader) (output_format : string)
    (info : gmap string value) :
  let ext := if String.eqb output_format "mp3" then "mp3" else "mp4" in
  let head := str (or_ (get info "title") (get info "id")) in
  let name := head +:+ " [" +:+ str (get info "id") +:+ "]." +:+ ext in
  (truthy (get info "title") = false -> head = str (get info "id")) /\
  (starts_with_slash head = true ->
   final_path s output_format (Some info) = inr name) /\
  (starts_with_slash head = false ->
   final_path s output_format (Some info) =
     inr (output_dir s +:+
          (if String.eqb (output_dir s) EmptyString || ends_with_slash (output_dir s)
           then EmptyString else "/") +:+ name)).
Proof.
  cbv zeta. split; [|split].
  - intros H. unfold or_. rewrite H. reflexivity.
  - intros H. unfold final_path, path_join. cbv zeta.
    change (" [" +:+ str (get info "id") +:+ "]." +:+
            (if String.eqb output_format "mp3" then "mp3" else "mp4"))
      with (" " +:+ ("[" +:+ str (get info "id") +:+ "]." +:+
            (if String.eqb output_format "mp3" then "mp3" else "mp4"))).
    rewrite starts_with_slash_app, H. reflexivity.
  - intros H. unfold final_path, path_join. cbv zeta.
    change (" [" +:+ str (get info "id") +:+ "]." +:+
            (if String.eqb output_format "mp3" then "mp3" else "mp4"))
      with (" " +:+ ("[" +:+ str (get info "id") +:+ "]." +:+
            (if String.eqb output_format "mp3" then "mp3" else "mp4"))).
    rewrite starts_with_slash_app, H.
    destruct (String.eqb (output_dir s) EmptyString || ends_with_slash (output_dir s));
      reflexivity.
Qed.

Lemma final_path_containment_witness :
  final_path (__init__ "/tmp/out" false) "mp4" (Some rooted_info) =
    inr "/etc/cron.d/x [abc123].mp4".
Proof.
  apply (final_path_containment (__init__ "/tmp/out" false) "mp4" rooted_info).
  reflexivity.
Defined.
